(** * Jura protocol codec (read_data.py): a shallow embedding and its properties

    The Python functions of [read_data.py] are embedded as Rocq functions over
    [Z] (Python's unbounded integers), [list] and [string].  An operation that
    can raise returns a [result]; the exception is kept, so that a
    [ValueError] of the character codec can be told apart from an
    [IndexError] of a list access. *)

From Stdlib Require Import ZArith List String Ascii Bool Lia Sorted.
Import ListNotations.
Open Scope Z_scope.

(** ** The part of the Python runtime the program uses *)

Module Py.

(** Exceptions the modelled code can raise.  [ValueError] carries its message:
    the codec's two length errors are [ValueError]s that differ by message.
    Python derives the two Unicode errors from [ValueError]; here they are
    constructors of their own, so [ValueError] stands for the errors raised
    as plain [ValueError]. *)
Inductive exn : Type :=
| ValueError (msg : string)
| IndexError
| UnicodeEncodeError
| UnicodeDecodeError.

Inductive result (A : Type) : Type :=
| Ok (a : A)
| Raise (e : exn).
Arguments Ok {A} a.
Arguments Raise {A} e.

Definition bind {A B : Type} (m : result A) (k : A -> result B) : result B :=
  match m with
  | Ok a => k a
  | Raise e => Raise e
  end.

(** A list comprehension whose element expression can raise. *)
Fixpoint mapM {A B : Type} (f : A -> result B) (l : list A) : result (list B) :=
  match l with
  | [] => Ok []
  | x :: rest =>
      bind (f x) (fun y => bind (mapM f rest) (fun ys => Ok (y :: ys)))
  end.

(** [range(n)] *)
Definition range (n : nat) : list Z := map Z.of_nat (seq 0 n).

(** [l[i]]: a negative index counts from the end, an index out of range
    raises [IndexError]. *)
Definition getitem {A : Type} (l : list A) (i : Z) : result A :=
  let n := Z.of_nat (List.length l) in
  let j := if i <? 0 then i + n else i in
  if (j <? 0) || (n <=? j) then Raise IndexError
  else match nth_error l (Z.to_nat j) with
       | Some x => Ok x
       | None => Raise IndexError
       end.

Fixpoint replace_nth {A : Type} (l : list A) (n : nat) (x : A) : list A :=
  match l, n with
  | [], _ => []
  | _ :: rest, O => x :: rest
  | y :: rest, S m => y :: replace_nth rest m x
  end.

(** [l[i] = x], as the list after the assignment. *)
Definition setitem {A : Type} (l : list A) (i : Z) (x : A) : result (list A) :=
  let n := Z.of_nat (List.length l) in
  let j := if i <? 0 then i + n else i in
  if (j <? 0) || (n <=? j) then Raise IndexError
  else Ok (replace_nth l (Z.to_nat j) x).

(** [l[lo:hi]] for non-negative bounds; like Python's, it clamps. *)
Definition slice {A : Type} (l : list A) (lo hi : nat) : list A :=
  firstn (hi - lo) (skipn lo l).

(** [l[-n:]] *)
Definition last_n {A : Type} (l : list A) (n : nat) : list A :=
  skipn (List.length l - n) l.

(** *** Hexadecimal text *)

Definition hex_digit (n : Z) : ascii :=
  if n <? 10 then ascii_of_nat (Z.to_nat (48 + n))
  else ascii_of_nat (Z.to_nat (87 + n)).

Fixpoint hex_digits (fuel : nat) (n : Z) (acc : string) : string :=
  match fuel with
  | O => acc
  | S f =>
      let acc' := String (hex_digit (n mod 16)) acc in
      if n / 16 =? 0 then acc' else hex_digits f (n / 16) acc'
  end.

(** ["%x" % n] for [0 <= n]. *)
Definition format_x (n : Z) : string :=
  hex_digits (S (Z.to_nat (Z.log2 n))) n EmptyString.

(** ["%02x" % n], also [f"{n:02x}"]: at least two characters, padded with
    zeros on the left; the sign of a negative number takes one of them. *)
Definition format_02x (n : Z) : string :=
  if n <? 0 then String "-" (format_x (- n))
  else if n <? 16 then String "0" (format_x n)
  else format_x n.

Definition hex_value (c : ascii) : option Z :=
  let n := Z.of_nat (nat_of_ascii c) in
  if (48 <=? n) && (n <=? 57) then Some (n - 48)
  else if (97 <=? n) && (n <=? 102) then Some (n - 87)
  else if (65 <=? n) && (n <=? 70) then Some (n - 55)
  else None.

Fixpoint int_16_digits (s : string) (acc : Z) : option Z :=
  match s with
  | EmptyString => Some acc
  | String c rest =>
      match hex_value c with
      | Some v => int_16_digits rest (16 * acc + v)
      | None => None
      end
  end.

(** [int(s, 16)] on a string of hexadecimal digits, the form the program
    itself produces with [%02x] and the form [gatttool] prints.  Python also
    accepts a sign, a [0x] prefix, underscores and surrounding blanks; those
    spellings are not modelled and are answered with [ValueError] here, and no
    statement below depends on that answer. *)
Definition int_16 (s : string) : result Z :=
  match s with
  | EmptyString => Raise (ValueError "invalid literal for int() with base 16")
  | _ =>
      match int_16_digits s 0 with
      | Some v => Ok v
      | None => Raise (ValueError "invalid literal for int() with base 16")
      end
  end.

(** [c.isspace()] for the characters of a one-byte alphabet. *)
Definition isspace (c : ascii) : bool :=
  let n := nat_of_ascii c in
  ((9 <=? n) && (n <=? 13) || (28 <=? n) && (n <=? 32)
   || (n =? 133) || (n =? 160))%nat.

(** [s.split()]: the maximal runs of non-blank characters.  [cur] holds the
    run being read, reversed. *)
Fixpoint split_aux (s : string) (cur : list ascii) : list string :=
  let flush (rest : list string) : list string :=
    match cur with
    | [] => rest
    | _ => string_of_list_ascii (rev cur) :: rest
    end in
  match s with
  | EmptyString => flush []
  | String c rest =>
      if isspace c then flush (split_aux rest [])
      else split_aux rest (c :: cur)
  end.

Definition split (s : string) : list string := split_aux s [].

(** ["".join(l)] *)
Definition join (l : list string) : string :=
  fold_right append EmptyString l.

End Py.

Import Py.

Notation "x <- m ;; k" := (bind m (fun x => k))
  (at level 61, m at next level, right associativity).

(** A [for] loop whose body can raise, threading the loop's variables. *)
Fixpoint foldM {A S : Type} (body : S -> A -> result S) (l : list A) (s : S)
  : result S :=
  match l with
  | [] => Ok s
  | x :: rest => s' <- body s x ;; foldM body rest s'
  end.

(** ** [class JuraEncoder]: the character codec

    A [bitarray] is the list of its bits, index 0 first; with the default
    (big-endian) bit order index 0 is the most significant bit of a byte. *)

Module JuraEncoder.

Definition bitarray : Type := list bool.

(** [self.base_layout = bitarray('01011011')] *)
Definition base_layout : bitarray :=
  [false; true; false; true; true; false; true; true].

Definition byte_bits (b : Z) : bitarray :=
  map (Z.testbit b) [7; 6; 5; 4; 3; 2; 1; 0].

(** [c.frombytes(bs)]: the bits of [bs] are appended to [c]. *)
Definition frombytes (c : bitarray) (bs : list Z) : bitarray :=
  c ++ flat_map byte_bits bs.

Definition bits_value (bits : bitarray) : Z :=
  fold_left (fun acc (b : bool) => 2 * acc + Z.b2z b) bits 0.

(** [a.tobytes()]: eight bits a byte, the last byte padded with zeros. *)
Fixpoint tobytes (a : bitarray) : list Z :=
  match a with
  | [] => []
  | b0 :: b1 :: b2 :: b3 :: b4 :: b5 :: b6 :: b7 :: rest =>
      bits_value [b0; b1; b2; b3; b4; b5; b6; b7] :: tobytes rest
  | partial => [bits_value (firstn 8 (partial ++ repeat false 8))]
  end.

(** UTF-8 of one code point ([str.encode()] with its default codec); a
    surrogate cannot be encoded. *)
Definition encode_char (cp : Z) : result (list Z) :=
  if cp <? 0x80 then Ok [cp]
  else if cp <? 0x800 then
    Ok [Z.lor 0xC0 (Z.shiftr cp 6); Z.lor 0x80 (Z.land cp 0x3F)]
  else if cp <? 0x10000 then
    if (0xD800 <=? cp) && (cp <=? 0xDFFF) then Raise UnicodeEncodeError
    else Ok [Z.lor 0xE0 (Z.shiftr cp 12);
             Z.lor 0x80 (Z.land (Z.shiftr cp 6) 0x3F);
             Z.lor 0x80 (Z.land cp 0x3F)]
  else
    Ok [Z.lor 0xF0 (Z.shiftr cp 18);
        Z.lor 0x80 (Z.land (Z.shiftr cp 12) 0x3F);
        Z.lor 0x80 (Z.land (Z.shiftr cp 6) 0x3F);
        Z.lor 0x80 (Z.land cp 0x3F)].

(** [letter.encode()]: a [str] is the list of its code points. *)
Definition encode (s : list Z) : result (list Z) :=
  bss <- mapM encode_char s ;; Ok (List.concat bss).

(** [bs.decode()] on bytes below [0x80], each a character of its own; a
    byte from [0x80] on that starts the input or follows such characters
    raises.  [fromjura] decodes exactly one byte, and a lone byte from
    [0x80] on is never valid UTF-8; longer multi-byte sequences are not
    modelled. *)
Fixpoint decode (bs : list Z) : result (list Z) :=
  match bs with
  | [] => Ok []
  | b :: rest =>
      if b <? 0x80 then s <- decode rest ;; Ok (b :: s)
      else Raise UnicodeDecodeError
  end.

(** The body of [tojura]'s loop with [hex] false:
    [bytes[i][2] = c[i * 2]; bytes[i][5] = c[i * 2 + 1]]. *)
Definition tojura_step (c : bitarray) (bytes : list bitarray) (i : Z)
  : result (list bitarray) :=
  b <- getitem c (i * 2) ;;
  row <- getitem bytes i ;;
  row <- setitem row 2 b ;;
  bytes <- setitem bytes i row ;;
  b <- getitem c (i * 2 + 1) ;;
  row <- getitem bytes i ;;
  row <- setitem row 5 b ;;
  setitem bytes i row.

(** [tojura(letter)], the call with [hex] left at its default 0, which
    returns the four bitarrays.  The call with [hex] set, which returns them
    as text, is [JuraHex.tojura_hex] below. *)
Definition tojura (letter : list Z) : result (list bitarray) :=
  if negb (Nat.eqb (List.length letter) 1) then
    Raise (ValueError "Needs a single byte")
  else
    bs <- encode letter ;;
    let c := frombytes [] bs in
    let c := last_n c 8 in
    let c := slice c 2 4 ++ slice c 0 2 ++ slice c 6 8 ++ slice c 4 6 in
    let c := skipn 4 c ++ firstn 4 c in
    let bytes := map (fun _ => base_layout) (range 4) in
    foldM (tojura_step c) (range 4) bytes.

(** The body of [fromjura]'s loop:
    [out[i * 2] = bytes[i][2]; out[i * 2 + 1] = bytes[i][5]]. *)
Definition fromjura_step (bytes : list bitarray) (out : bitarray) (i : Z)
  : result bitarray :=
  row <- getitem bytes i ;;
  b <- getitem row 2 ;;
  out <- setitem out (i * 2) b ;;
  row <- getitem bytes i ;;
  b <- getitem row 5 ;;
  setitem out (i * 2 + 1) b.

(** [fromjura(bytes)] with [hex] left at 0: [bytes] is a list of bitarrays,
    and the function starts at its length check.  The call with [hex] set
    first turns its text into such a list (the [if hex:] lines, which can
    raise before the length check) and then goes on from here; that call is
    [JuraHex.fromjura_hex] below.
    [bitarray(8)] has eight bits of no fixed value; they are taken as zeros,
    and the loop assigns every one of them before it is read. *)
Definition fromjura (bytes : list bitarray) : result (list Z) :=
  if negb (Nat.eqb (List.length bytes) 4) then
    Raise (ValueError "Needs an array of size 4")
  else
    let out := repeat false 8 in
    out <- foldM (fromjura_step bytes) (range 4) out ;;
    let out := skipn 4 out ++ firstn 4 out in
    let out := slice out 2 4 ++ slice out 0 2 ++ slice out 6 8 ++ slice out 4 6 in
    decode (tobytes out).

End JuraEncoder.

(** ** [class BtEncoder]: the nibble cipher and the key search *)

Module BtEncoder.

Definition numbers1 : list Z :=
  [14; 4; 3; 2; 1; 13; 8; 11; 6; 15; 12; 7; 10; 5; 0; 9].
Definition numbers2 : list Z :=
  [10; 6; 13; 12; 14; 11; 1; 9; 15; 7; 0; 5; 3; 2; 4; 8].

Definition mod256 (i : Z) : Z := i mod 256.

Definition shuffle (dataNibble nibbleCount keyLeftNibbel keyRightNibbel : Z)
  : result Z :=
  let i5 := mod256 (Z.shiftr nibbleCount 4) in
  tmp1 <- getitem numbers1
            (mod256 (dataNibble + nibbleCount + keyLeftNibbel) mod 16) ;;
  tmp2 <- getitem numbers2
            (mod256 (tmp1 + keyRightNibbel + i5 - nibbleCount - keyLeftNibbel)
             mod 16) ;;
  tmp3 <- getitem numbers1
            (mod256 (tmp2 + keyLeftNibbel + nibbleCount - keyRightNibbel - i5)
             mod 16) ;;
  Ok (mod256 (tmp3 - nibbleCount - keyLeftNibbel) mod 16).

(** The [for d in data] loop of [encDecBytes]; [result] and [nibbelCount]
    are the loop's variables. *)
Fixpoint encDecBytes_loop (data : list Z) (keyLeftNibbel keyRightNibbel : Z)
    (nibbelCount : Z) (result : list Z) : Py.result (list Z) :=
  match data with
  | [] => Ok result
  | d :: rest =>
      let dataLeftNibbel := Z.shiftr d 4 in
      let dataRightNibbel := Z.land d 15 in
      resultLeftNibbel <-
        shuffle dataLeftNibbel nibbelCount keyLeftNibbel keyRightNibbel ;;
      resultRightNibbel <-
        shuffle dataRightNibbel (nibbelCount + 1) keyLeftNibbel keyRightNibbel ;;
      encDecBytes_loop rest keyLeftNibbel keyRightNibbel (nibbelCount + 2)
        (result ++ [Z.lor (Z.shiftl resultLeftNibbel 4) resultRightNibbel])
  end.

(** [encDecBytes(data, key)]: [key] is the key's hexadecimal text. *)
Definition encDecBytes (data : list Z) (key : string) : result (list Z) :=
  key <- int_16 key ;;
  let keyLeftNibbel := Z.shiftr key 4 in
  let keyRightNibbel := Z.land key 15 in
  encDecBytes_loop data keyLeftNibbel keyRightNibbel 0 [].

(** The [for key in range(256)] loop of [bruteforce_key]; falling out of the
    loop returns [None]. *)
Fixpoint bruteforce_loop (data : list Z) (keys : list Z)
  : result (option string) :=
  match keys with
  | [] => Ok None
  | key :: rest =>
      let key_hex := format_02x key in
      result <- encDecBytes data key_hex ;;
      first <- getitem result 0 ;;
      k <- int_16 key_hex ;;
      if first =? k then Ok (Some key_hex) else bruteforce_loop data rest
  end.

(** [bruteforce_key(data)]: [data] is the payload as text, its bytes in
    hexadecimal and separated by blanks. *)
Definition bruteforce_key (data : string) : result (option string) :=
  data <- mapM int_16 (split data) ;;
  bruteforce_loop data (range 256).

End BtEncoder.

(** ** The script's own functions and loops *)

Module Script.

(** An [ALERT] element of the machine file, as [extract_alerts] reads it:
    [int(alert.get('Bit'))] and [alert.get('Name')]. *)
Record alert : Type := { Bit : Z; AlertName : option string }.

(** [max(...)] of a generator: it raises on an empty one. *)
Definition max_of (l : list Z) : result Z :=
  match l with
  | [] => Raise (ValueError "max() arg is an empty sequence")
  | x :: rest => Ok (fold_left Z.max rest x)
  end.

(** [extract_alerts], on the [ALERT] elements the XML query found. *)
Definition extract_alerts (found : list alert) : result (list (option string)) :=
  m <- max_of (map Bit found) ;;
  let alerts := repeat None (Z.to_nat (m + 1)) in
  foldM (fun alerts a => setitem alerts (Bit a) (AlertName a)) found alerts.

(** What the alert loop logs for an active bit: the bit index and
    [alerts[i]]. *)
Definition alert_line : Type := (Z * option string)%type.

(** The loop [for i in range((len(decoded) - 1) * 8)] that checks for active
    alerts.  [log] holds the lines logged so far; the loop ends with the
    lines logged and, when an index raised, the exception that stopped it. *)
Fixpoint alert_loop (decoded : list Z) (alerts : list (option string))
    (indices : list Z) (log : list alert_line)
  : list alert_line * option exn :=
  match indices with
  | [] => (log, None)
  | i :: rest =>
      let offset_abs := Z.shiftr i 3 + 1 in
      let offset_byte := 7 - Z.land i 7 in
      match getitem decoded offset_abs with
      | Raise e => (log, Some e)
      | Ok byte =>
          if negb (Z.land (Z.shiftr byte offset_byte) 1 =? 0) then
            match getitem alerts i with
            | Raise e => (log, Some e)
            | Ok name => alert_loop decoded alerts rest (log ++ [(i, name)])
            end
          else alert_loop decoded alerts rest log
      end
  end.

Definition alert_scan (decoded : list Z) (alerts : list (option string))
  : list alert_line * option exn :=
  alert_loop decoded alerts
    (range (Z.to_nat ((Z.of_nat (List.length decoded) - 1) * 8))) [].

(** [range(start, stop, step)] for a positive [step]. *)
Fixpoint range_from (fuel : nat) (start stop step : Z) : list Z :=
  match fuel with
  | O => []
  | S f =>
      if start <? stop then start :: range_from f (start + step) stop step
      else []
  end.

Definition range3 (start stop step : Z) : list Z :=
  range_from (Z.to_nat (stop - start)) start stop step.

(** The reassembly of the statistics, the list comprehension
    [[int("".join(["%02x" % d for d in decoded[i:i+w]]), 16)
      for i in range(0, len(decoded), w)]]
    used with [w = 3] for the product counters and [w = 2] for the cleaning
    counters. *)
Definition reassemble (decoded : list Z) (w : Z) : result (list Z) :=
  mapM
    (fun i =>
       int_16
         (join (map format_02x (slice decoded (Z.to_nat i) (Z.to_nat (i + w))))))
    (range3 0 (Z.of_nat (List.length decoded)) w).

(** A [PRODUCT] of the machine file, as [extract_products] reads it. *)
Record product : Type := { Code : Z; Name : option string }.

(** What [log_statistics] logs for a product: its code, name and value. *)
Definition product_line : Type := (Z * option string * Z)%type.

(** [next((p for p in products if p['Code'] == product_code), None)] *)
Definition find_product (products : list product) (product_code : Z)
  : option product :=
  find (fun p => Code p =? product_code) products.

(** [log_statistics]: the lines it logs.  A product found is a dictionary
    with two keys, so [if product] holds for it. *)
Fixpoint log_statistics_from (i : Z) (decoded : list Z) (products : list product)
  : list product_line :=
  match decoded with
  | [] => []
  | byte :: rest =>
      let product_code := i in
      match find_product products product_code with
      | Some p =>
          let product_name := Name p in
          let byte := if byte =? 65535 then 0 else byte in
          (product_code, product_name, byte)
            :: log_statistics_from (i + 1) rest products
      | None => log_statistics_from (i + 1) rest products
      end
  end.

Definition log_statistics (decoded : list Z) (products : list product)
  : list product_line :=
  log_statistics_from 0 decoded products.

End Script.

(** ** The specification's reference definitions

    These follow the words of the specification, not the code; the theorems
    below compare the code with them. *)

Module Spec.

Definition is_byte (b : Z) : Prop := 0 <= b < 256.
Definition is_nibble (n : Z) : Prop := 0 <= n < 16.

Definition Table1 : list Z :=
  [14; 4; 3; 2; 1; 13; 8; 11; 6; 15; 12; 7; 10; 5; 0; 9].
Definition Table2 : list Z :=
  [10; 6; 13; 12; 14; 11; 1; 9; 15; 7; 0; 5; 3; 2; 4; 8].

Definition lookup (table : list Z) (i : Z) : Z := nth (Z.to_nat i) table 0.

(** The per-nibble transform of section 4.1. *)
Definition spec_shuffle (nibble position keyHigh keyLow : Z) : Z :=
  let aux := (Z.shiftr position 4) mod 256 in
  let t1 := lookup Table1 ((nibble + position + keyHigh) mod 256 mod 16) in
  let t2 :=
    lookup Table2 ((t1 + keyLow + aux - position - keyHigh) mod 256 mod 16) in
  let t3 :=
    lookup Table1 ((t2 + keyHigh + position - keyLow - aux) mod 256 mod 16) in
  (t3 - position - keyHigh) mod 256 mod 16.

(** The byte transform of section 4.1, [position] being the nibble position
    of the byte's high nibble. *)
Definition transformByte (b position keyHigh keyLow : Z) : Z :=
  let h := Z.shiftr b 4 in
  let l := Z.land b 15 in
  let h' := spec_shuffle h position keyHigh keyLow in
  let l' := spec_shuffle l (position + 1) keyHigh keyLow in
  Z.lor (Z.shiftl h' 4) l'.

(** The transform of a payload whose first byte sits at nibble [position]. *)
Fixpoint transformPayload (data : list Z) (position keyHigh keyLow : Z)
  : list Z :=
  match data with
  | [] => []
  | b :: rest =>
      transformByte b position keyHigh keyLow
        :: transformPayload rest (position + 2) keyHigh keyLow
  end.

(** The nibble transform once its position and key are folded into the two
    offsets it depends on, [a = position + keyHigh] and
    [b = keyLow + aux - position - keyHigh], both modulo 16. *)
Definition core (a b n : Z) : Z :=
  let t1 := lookup Table1 ((n + a) mod 16) in
  let t2 := lookup Table2 ((t1 + b) mod 16) in
  let t3 := lookup Table1 ((t2 - b) mod 16) in
  (t3 - a) mod 16.

(** The check of the key search for candidate [k]: decoding the payload with
    [k] makes the first decoded byte equal [k]. *)
Definition key_check (payload : list Z) (k : Z) : bool :=
  match BtEncoder.encDecBytes payload (format_02x k) with
  | Ok (first :: _) => first =? k
  | _ => false
  end.

(** Bit [m] of the 8-bit value [c], bit 0 being the most significant. *)
Definition char_bit (c : Z) (m : Z) : bool := Z.testbit c (7 - m).

(** The 2-bit group [g] of [c], group 0 being the most significant pair. *)
Definition group (c : Z) (g : Z) : bool * bool :=
  (char_bit c (2 * g), char_bit c (2 * g + 1)).

(** An output byte of the character codec that carries the bits [x] and
    [y]: [x] at position 2, [y] at position 5, the template elsewhere. *)
Definition carries (w : JuraEncoder.bitarray) (xy : bool * bool) : Prop :=
  List.length w = 8%nat /\
  nth_error w 2 = Some (fst xy) /\
  nth_error w 5 = Some (snd xy) /\
  forall j, (j < 8)%nat -> j <> 2%nat -> j <> 5%nat ->
            nth_error w j = nth_error JuraEncoder.base_layout j.

(** The encoding of section 4.3 for the 8 bits of [c]: four bytes, byte [i]
    carrying group [3 - i]. *)
Definition wire_char (c : Z) (ws : list JuraEncoder.bitarray) : Prop :=
  List.length ws = 4%nat /\
  forall i w, nth_error ws i = Some w -> carries w (group c (3 - Z.of_nat i)).

(** Consecutive groups of [w] elements; a shorter last group is kept. *)
Fixpoint chunks_fuel {A : Type} (fuel w : nat) (l : list A) : list (list A) :=
  match fuel with
  | O => []
  | S f =>
      match l with
      | [] => []
      | _ => firstn w l :: chunks_fuel f w (skipn w l)
      end
  end.

Definition chunks {A : Type} (w : nat) (l : list A) : list (list A) :=
  chunks_fuel (List.length l) w l.

(** Consecutive groups of exactly [w] elements; a shorter last group is
    dropped. *)
Definition full_chunks {A : Type} (w : nat) (l : list A) : list (list A) :=
  filter (fun g => Nat.eqb (List.length g) w) (chunks w l).

(** The unsigned integer a group of bytes spells, first byte highest. *)
Definition big_endian (g : list Z) : Z :=
  fold_left (fun acc d => 256 * acc + d) g 0.

(** [reassemble] as section 4.4 words it. *)
Definition spec_reassemble (decoded : list Z) (w : nat) : list Z :=
  map (fun v => if v =? 65535 then 0 else v)
      (map big_endian (full_chunks w decoded)).

(** The alert bit of absolute index [i]: byte offset [1 + (i >> 3)], bit
    [7 - (i & 7)] within the byte, bit 7 being the most significant. *)
Definition alert_bit (decoded : list Z) (i : Z) : bool :=
  Z.testbit (nth (Z.to_nat (1 + Z.shiftr i 3)) decoded 0) (7 - Z.land i 7).

(** The template with [x] at position 2 and [y] at position 5. *)
Definition wire_byte (x y : bool) : JuraEncoder.bitarray :=
  [false; true; x; true; true; y; true; true].

(** A computation that does not end in a [ValueError]. *)
Definition no_ValueError {A : Type} (m : result A) : Prop :=
  match m with
  | Raise (ValueError _) => False
  | _ => True
  end.

End Spec.

Import Spec.

(** ** The rest of the script: commands and maintenance counters *)

Module Commands.

(** [sep.join(l)] *)
Fixpoint join_sep (sep : string) (l : list string) : string :=
  match l with
  | [] => EmptyString
  | x :: rest =>
      match rest with
      | [] => x
      | _ => (x ++ sep ++ join_sep sep rest)%string
      end
  end.

(** [s[lo:hi]] on a string, for non-negative bounds; it clamps. *)
Definition str_slice (s : string) (lo hi : nat) : string :=
  substring lo (hi - lo) s.

(** [BtEncoder.hexStrToInt]: a byte is read every three characters. *)
Definition hexStrToInt (hexStr : string) : result (list Z) :=
  mapM
    (fun i => int_16 (str_slice hexStr (Z.to_nat i) (Z.to_nat (i + 2))))
    (Script.range3 0 (Z.of_nat (String.length hexStr)) 3).

(** [encode_command(command, key_dec)]: the bytes of [command] are read
    first, then [encDecBytes] reads the key. *)
Definition encode_command (command key_dec : string) : result string :=
  bytes <- mapM int_16 (split command) ;;
  encoded <- BtEncoder.encDecBytes bytes key_dec ;;
  Ok (join (map format_02x encoded)).

(** What [log_maintenance] logs for a counter: the label, the counter's
    type as the machine file names it, and its value. *)
Definition maintenance_line : Type := (string * option string * Z)%type.

(** The loop of [log_maintenance], [i] being the index [enumerate] has
    reached. *)
Fixpoint log_maintenance_from (i : Z) (decoded : list Z)
    (maintenance_list : list (option string)) (label : string)
    (log : list maintenance_line) : result (list maintenance_line) :=
  match maintenance_list with
  | [] => Ok log
  | count :: rest =>
      if i <? Z.of_nat (List.length decoded) then
        value <- getitem decoded i ;;
        log_maintenance_from (i + 1) decoded rest label
          (log ++ [(label, count, value)])
      else log_maintenance_from (i + 1) decoded rest label log
  end.

Definition log_maintenance (decoded : list Z)
    (maintenance_list : list (option string)) (label : string)
  : result (list maintenance_line) :=
  log_maintenance_from 0 decoded maintenance_list label [].

End Commands.

(** ** [class JuraEncoder] with [hex] set: the codec on text *)

Module JuraHex.

Import JuraEncoder.

(** A result that can also be a [binascii.Error] (which Python derives from
    [ValueError]), the error of [binascii.unhexlify]. *)
Inductive hex_result (A : Type) : Type :=
| HexOk (a : A)
| HexRaise (e : exn)
| BinasciiError (msg : string).
Arguments HexOk {A} a.
Arguments HexRaise {A} e.
Arguments BinasciiError {A} msg.

Definition hex_bind {A B : Type} (m : hex_result A) (k : A -> hex_result B)
  : hex_result B :=
  match m with
  | HexOk a => k a
  | HexRaise e => HexRaise e
  | BinasciiError msg => BinasciiError msg
  end.

Definition lift {A : Type} (m : result A) : hex_result A :=
  match m with
  | Ok a => HexOk a
  | Raise e => HexRaise e
  end.

Fixpoint hex_mapM {A B : Type} (f : A -> hex_result B) (l : list A)
  : hex_result (list B) :=
  match l with
  | [] => HexOk []
  | x :: rest =>
      hex_bind (f x) (fun y =>
      hex_bind (hex_mapM f rest) (fun ys => HexOk (y :: ys)))
  end.

(** [binascii.hexlify(bs).decode()]: two lowercase digits for each byte. *)
Definition hexlify (bs : list Z) : string := join (map format_02x bs).

Fixpoint unhexlify_pairs (s : string) : option (list Z) :=
  match s with
  | EmptyString => Some []
  | String _ EmptyString => None
  | String a (String b rest) =>
      match hex_value a, hex_value b, unhexlify_pairs rest with
      | Some x, Some y, Some bs => Some (16 * x + y :: bs)
      | _, _, _ => None
      end
  end.

(** [binascii.unhexlify(s)]: the length is checked before the digits. *)
Definition unhexlify (s : string) : hex_result (list Z) :=
  if Nat.odd (String.length s) then BinasciiError "Odd-length string"
  else match unhexlify_pairs s with
       | Some bs => HexOk bs
       | None => BinasciiError "Non-hexadecimal digit found"
       end.

(** ['{0:08b}'.format(n)] for a byte [n]: its eight binary digits. *)
Definition format_08b (n : Z) : string :=
  string_of_list_ascii
    (map (fun b : bool => if b then "1"%char else "0"%char) (byte_bits n)).

(** [bitarray(s)] on a text of binary digits. *)
Fixpoint bitarray_of_string (s : string) : result bitarray :=
  match s with
  | EmptyString => Ok []
  | String c rest =>
      if Ascii.eqb c "0" then bits <- bitarray_of_string rest ;; Ok (false :: bits)
      else if Ascii.eqb c "1" then
        bits <- bitarray_of_string rest ;; Ok (true :: bits)
      else Raise (ValueError "expected '0' or '1'")
  end.

(** The body of [tojura]'s loop with [hex] set: the two assignments, then
    [hex_code += binascii.hexlify(bytes[i].tobytes()).decode() + " "]. *)
Definition tojura_hex_step (c : bitarray) (st : list bitarray * string) (i : Z)
  : result (list bitarray * string) :=
  bytes <- tojura_step c (fst st) i ;;
  row <- getitem bytes i ;;
  Ok (bytes, (snd st ++ (hexlify (tobytes row) ++ " "))%string).

(** [tojura(letter, hex=1)]: it returns [hex_code[:-1]]. *)
Definition tojura_hex (letter : list Z) : result string :=
  if negb (Nat.eqb (List.length letter) 1) then
    Raise (ValueError "Needs a single byte")
  else
    bs <- encode letter ;;
    let c := frombytes [] bs in
    let c := last_n c 8 in
    let c := slice c 2 4 ++ slice c 0 2 ++ slice c 6 8 ++ slice c 4 6 in
    let c := skipn 4 c ++ firstn 4 c in
    let bytes := map (fun _ => base_layout) (range 4) in
    st <- foldM (tojura_hex_step c) (range 4) (bytes, EmptyString) ;;
    let hex_code := snd st in
    Ok (substring 0 (String.length hex_code - 1) hex_code).

(** [fromjura(bytes, hex=1)]: each blank-separated item of the text is turned
    into the bitarray of its first byte, then the function goes on as
    without [hex]. *)
Definition fromjura_hex (bytes : string) : hex_result (list Z) :=
  hex_bind
    (hex_mapM
       (fun j =>
          hex_bind (unhexlify j) (fun bs =>
          hex_bind (lift (getitem bs 0)) (fun b =>
          lift (bitarray_of_string (format_08b b)))))
       (split bytes))
    (fun rows => lift (fromjura rows)).

End JuraHex.

(** * Properties *)

(** ** The runtime model *)

Section Runtime.

Lemma bind_ok {A B : Type} (m : result A) (k : A -> result B) (b : B) :
  bind m k = Ok b -> exists a, m = Ok a /\ k a = Ok b.
Proof. destruct m as [a|e]; simpl; [eauto | discriminate]. Qed.

Lemma In_range (n : nat) (k : Z) : In k (range n) <-> 0 <= k < Z.of_nat n.
Proof.
  unfold range. rewrite in_map_iff. split.
  - intros [j [<- Hj]]. apply in_seq in Hj. lia.
  - intros Hk. exists (Z.to_nat k). split; [lia | apply in_seq; lia].
Qed.

(** A property checked on every element of [range n] holds below [n]. *)
Lemma forallb_range (f : Z -> bool) (n : nat) :
  forallb f (range n) = true -> forall k, 0 <= k < Z.of_nat n -> f k = true.
Proof.
  intros H k Hk. rewrite forallb_forall in H. apply H, In_range, Hk.
Qed.

Lemma getitem_nth {A : Type} (l : list A) (i : Z) (d : A) :
  0 <= i < Z.of_nat (List.length l) ->
  getitem l i = Ok (nth (Z.to_nat i) l d).
Proof.
  intros Hi. unfold getitem.
  destruct (Z.ltb_spec i 0) as [?|_]; [lia|].
  destruct (Z.ltb_spec i 0) as [?|_]; [lia|].
  destruct (Z.leb_spec (Z.of_nat (List.length l)) i) as [?|_]; [lia|]. simpl.
  destruct (nth_error l (Z.to_nat i)) as [x|] eqn:E.
  - now rewrite (nth_error_nth _ _ d E).
  - apply nth_error_None in E. lia.
Qed.

Lemma getitem_nth_error {A : Type} (l : list A) (i : nat) (x : A) :
  nth_error l i = Some x -> getitem l (Z.of_nat i) = Ok x.
Proof.
  intros E. assert (Hlt : (i < List.length l)%nat)
    by (apply nth_error_Some; congruence).
  rewrite (getitem_nth l _ x) by lia.
  rewrite Nat2Z.id. now rewrite (nth_error_nth _ _ x E).
Qed.

Lemma getitem_out_of_range {A : Type} (l : list A) (i : Z) :
  Z.of_nat (List.length l) <= i -> getitem l i = Raise IndexError.
Proof.
  intros Hi. unfold getitem.
  destruct (Z.ltb_spec i 0) as [?|_]; [lia|].
  destruct (Z.ltb_spec i 0) as [?|_]; [lia|].
  destruct (Z.leb_spec (Z.of_nat (List.length l)) i) as [_|?]; [|lia].
  reflexivity.
Qed.

Lemma hex_value_digit (n : Z) : 0 <= n < 16 -> hex_value (hex_digit n) = Some n.
Proof.
  intros Hn.
  apply (forallb_range
           (fun n => match hex_value (hex_digit n) with
                     | Some v => v =? n
                     | None => false
                     end) 16 eq_refl) in Hn.
  destruct (hex_value (hex_digit n)) as [v|]; [|discriminate].
  apply Z.eqb_eq in Hn. now subst.
Qed.

(** A byte is written as its two hexadecimal digits. *)
Lemma format_02x_byte (d : Z) :
  0 <= d < 256 ->
  format_02x d
  = String (hex_digit (d / 16)) (String (hex_digit (d mod 16)) EmptyString).
Proof.
  intros Hd.
  apply (forallb_range
           (fun d => String.eqb (format_02x d)
                       (String (hex_digit (d / 16))
                          (String (hex_digit (d mod 16)) EmptyString)))
           256 eq_refl) in Hd.
  now apply String.eqb_eq in Hd.
Qed.

Lemma append_empty_r (s : string) : (s ++ EmptyString)%string = s.
Proof. induction s as [|c s IH]; simpl; [reflexivity | now rewrite IH]. Qed.

Lemma int_16_digits_cons (c : ascii) (v acc : Z) (rest : string) :
  hex_value c = Some v ->
  int_16_digits (String c rest) acc = int_16_digits rest (16 * acc + v).
Proof. intros E. cbn [int_16_digits]. now rewrite E. Qed.

Lemma int_16_digits_byte (d acc : Z) (rest : string) :
  0 <= d < 256 ->
  int_16_digits (format_02x d ++ rest) acc
  = int_16_digits rest (256 * acc + d).
Proof.
  intros Hd. rewrite (format_02x_byte d Hd). cbn [append].
  assert (H1 : 0 <= d / 16 < 16)
    by (split; [apply Z.div_pos | apply Z.div_lt_upper_bound]; lia).
  assert (H2 : 0 <= d mod 16 < 16) by (apply Z.mod_pos_bound; lia).
  rewrite (int_16_digits_cons _ _ _ _ (hex_value_digit _ H1)).
  rewrite (int_16_digits_cons _ _ _ _ (hex_value_digit _ H2)).
  f_equal. pose proof (Z.div_mod d 16 ltac:(lia)). lia.
Qed.

(** Reading back the text of a key byte gives the key byte. *)
Lemma int_16_format_02x (k : Z) : 0 <= k < 256 -> int_16 (format_02x k) = Ok k.
Proof.
  intros Hk. unfold int_16.
  pose proof (int_16_digits_byte k 0 EmptyString Hk) as E.
  rewrite append_empty_r in E. rewrite E. cbn [int_16_digits].
  rewrite (format_02x_byte k Hk). reflexivity.
Qed.

End Runtime.

(** ** The nibble cipher *)

Section Cipher.

Import BtEncoder.

Lemma getitem_table (t : list Z) (x : Z) :
  List.length t = 16%nat -> getitem t (x mod 16) = Ok (lookup t (x mod 16)).
Proof.
  intros Ht. apply getitem_nth. rewrite Ht.
  pose proof (Z.mod_pos_bound x 16). lia.
Qed.

(** The code's [shuffle] never raises and computes the reference nibble
    transform. *)
Lemma shuffle_spec (n p kh kl : Z) :
  shuffle n p kh kl = Ok (spec_shuffle n p kh kl).
Proof.
  unfold shuffle, spec_shuffle, mod256.
  rewrite (getitem_table numbers1) by reflexivity. cbn [bind].
  rewrite (getitem_table numbers2) by reflexivity. cbn [bind].
  rewrite (getitem_table numbers1) by reflexivity. cbn [bind].
  reflexivity.
Qed.

Lemma spec_shuffle_nibble (n p kh kl : Z) : is_nibble (spec_shuffle n p kh kl).
Proof. unfold spec_shuffle, is_nibble. apply Z.mod_pos_bound. lia. Qed.

Lemma encDecBytes_loop_spec (data : list Z) :
  forall (kh kl pos : Z) (acc : list Z),
    encDecBytes_loop data kh kl pos acc
    = Ok (acc ++ transformPayload data pos kh kl).
Proof.
  induction data as [|d rest IH]; intros kh kl pos acc.
  - simpl. now rewrite app_nil_r.
  - cbn [encDecBytes_loop transformPayload].
    rewrite !shuffle_spec. cbn [bind]. rewrite IH.
    rewrite <- app_assoc. unfold transformByte. reflexivity.
Qed.

Lemma encDecBytes_spec (data : list Z) (key : string) (k : Z) :
  int_16 key = Ok k ->
  encDecBytes data key
  = Ok (transformPayload data 0 (Z.shiftr k 4) (Z.land k 15)).
Proof.
  intros Hk. unfold encDecBytes. rewrite Hk. cbn [bind].
  now rewrite encDecBytes_loop_spec.
Qed.

Lemma transformPayload_length (data : list Z) :
  forall pos kh kl,
    List.length (transformPayload data pos kh kl) = List.length data.
Proof.
  induction data as [|d rest IH]; intros; simpl; [reflexivity | now rewrite IH].
Qed.

Lemma transformPayload_nth (data : list Z) :
  forall (pos kh kl : Z) (i : nat) (b : Z),
    nth_error data i = Some b ->
    nth_error (transformPayload data pos kh kl) i
    = Some (transformByte b (pos + 2 * Z.of_nat i) kh kl).
Proof.
  induction data as [|d rest IH]; intros pos kh kl i b Hi.
  - destruct i; discriminate.
  - destruct i as [|i].
    + injection Hi as ->. cbn. now rewrite Z.add_0_r.
    + cbn [transformPayload nth_error]. cbn [nth_error] in Hi.
      rewrite (IH _ _ _ _ _ Hi). do 2 f_equal. lia.
Qed.

(** C1.  The byte at payload index [i] is transformed to [(h' << 4) | l'],
    [h'] being the reference nibble transform [spec_shuffle] of the byte's
    high nibble at position [2i] and [l'] that of its low nibble at position
    [2i + 1], with the key split into [k >> 4] and [k & 15]; and the code's
    [shuffle] is the reference transform, every sum reduced modulo 256 and
    then modulo 16. *)
Theorem encDecBytes_byte_transform :
  forall (data : list Z) (key : string) (k : Z) (i : nat) (b : Z),
    int_16 key = Ok k ->
    nth_error data i = Some b ->
    let keyHigh := Z.shiftr k 4 in
    let keyLow := Z.land k 15 in
    let h' := spec_shuffle (Z.shiftr b 4) (2 * Z.of_nat i) keyHigh keyLow in
    let l' := spec_shuffle (Z.land b 15) (2 * Z.of_nat i + 1) keyHigh keyLow in
    (forall nibble position,
        shuffle nibble position keyHigh keyLow
        = Ok (spec_shuffle nibble position keyHigh keyLow)) /\
    exists out,
      encDecBytes data key = Ok out /\
      nth_error out i = Some (Z.lor (Z.shiftl h' 4) l').
Proof.
  intros data key k i b Hk Hb keyHigh keyLow h' l'. split.
  - intros. apply shuffle_spec.
  - exists (transformPayload data 0 keyHigh keyLow). split.
    + now apply encDecBytes_spec.
    + rewrite (transformPayload_nth _ _ _ _ _ _ Hb). reflexivity.
Qed.

Lemma encDecBytes_byte_transform_witness :
  exists out,
    encDecBytes [0x5a; 0x00; 0x3d] "5a" = Ok out /\
    nth_error out 1
    = Some (Z.lor (Z.shiftl (spec_shuffle 0 2 5 10) 4) (spec_shuffle 0 3 5 10)).
Proof.
  exact (proj2 (encDecBytes_byte_transform [0x5a; 0x00; 0x3d] "5a" 0x5a 1 0
                  eq_refl eq_refl)).
Defined.

(** *** The transform is its own inverse *)

Lemma mod_256_16 (x : Z) : x mod 256 mod 16 = x mod 16.
Proof. apply Z.mod_mod_divide. exists 16. reflexivity. Qed.

(** The nibble transform depends on its position and key only through two
    offsets modulo 16. *)
Lemma spec_shuffle_core (n p kh kl : Z) :
  spec_shuffle n p kh kl
  = core ((p + kh) mod 16)
         ((kl + (Z.shiftr p 4) mod 256 - p - kh) mod 16) n.
Proof.
  unfold spec_shuffle, core. rewrite !mod_256_16. cbv zeta.
  set (aux := (Z.shiftr p 4) mod 256).
  set (a := p + kh). set (b := kl + aux - p - kh).
  replace (n + p + kh) with (n + a) by (unfold a; lia).
  rewrite (Z.add_mod_idemp_r n a 16) by lia.
  set (t1 := lookup Table1 ((n + a) mod 16)).
  replace (t1 + kl + aux - p - kh) with (t1 + b) by (unfold b; lia).
  rewrite (Z.add_mod_idemp_r t1 b 16) by lia.
  set (t2 := lookup Table2 ((t1 + b) mod 16)).
  replace (t2 + kh + p - kl - aux) with (t2 - b) by (unfold b; lia).
  rewrite (Zminus_mod_idemp_r t2 b 16).
  set (t3 := lookup Table1 ((t2 - b) mod 16)).
  replace (t3 - p - kh) with (t3 - a) by (unfold a; lia).
  now rewrite (Zminus_mod_idemp_r t3 a 16).
Qed.

(** Both tables are involutions of the nibbles, so [core] undoes itself;
    checked on the 16 * 16 * 16 offsets and nibbles. *)
Lemma core_involutive (a b n : Z) :
  is_nibble a -> is_nibble b -> is_nibble n -> core a b (core a b n) = n.
Proof.
  unfold is_nibble. intros Ha Hb Hn.
  assert (H : forallb (fun a =>
                forallb (fun b =>
                  forallb (fun n => core a b (core a b n) =? n) (range 16))
                        (range 16)) (range 16) = true) by (vm_compute; reflexivity).
  pose proof (forallb_range _ 16 H a Ha) as H1. cbv beta in H1.
  pose proof (forallb_range _ 16 H1 b Hb) as H2. cbv beta in H2.
  pose proof (forallb_range _ 16 H2 n Hn) as H3. cbv beta in H3.
  now apply Z.eqb_eq in H3.
Qed.

Lemma spec_shuffle_involutive (n p kh kl : Z) :
  is_nibble n -> spec_shuffle (spec_shuffle n p kh kl) p kh kl = n.
Proof.
  intros Hn. rewrite (spec_shuffle_core n). rewrite spec_shuffle_core.
  apply core_involutive; try assumption;
    unfold is_nibble; apply Z.mod_pos_bound; lia.
Qed.

(** Two nibbles joined into a byte, and split again. *)
Lemma nibbles_join (h l : Z) :
  is_nibble h -> is_nibble l ->
  let b := Z.lor (Z.shiftl h 4) l in
  is_byte b /\ Z.shiftr b 4 = h /\ Z.land b 15 = l.
Proof.
  unfold is_nibble, is_byte. intros Hh Hl.
  assert (H : forallb (fun h =>
                forallb (fun l =>
                  let b := Z.lor (Z.shiftl h 4) l in
                  (0 <=? b) && (b <? 256) && (Z.shiftr b 4 =? h)
                  && (Z.land b 15 =? l)) (range 16)) (range 16) = true)
    by (vm_compute; reflexivity).
  pose proof (forallb_range _ 16 H h Hh) as H1. cbv beta in H1.
  pose proof (forallb_range _ 16 H1 l Hl) as H2. cbv beta zeta in H2.
  cbv zeta. rewrite !andb_true_iff in H2. lia.
Qed.

Lemma byte_split (b : Z) :
  is_byte b ->
  is_nibble (Z.shiftr b 4) /\ is_nibble (Z.land b 15) /\
  Z.lor (Z.shiftl (Z.shiftr b 4) 4) (Z.land b 15) = b.
Proof.
  unfold is_nibble, is_byte. intros Hb.
  assert (H : forallb (fun b =>
                let h := Z.shiftr b 4 in
                let l := Z.land b 15 in
                (0 <=? h) && (h <? 16) && (0 <=? l) && (l <? 16)
                && (Z.lor (Z.shiftl h 4) l =? b)) (range 256) = true)
    by (vm_compute; reflexivity).
  pose proof (forallb_range _ 256 H b Hb) as H1. cbv beta zeta in H1.
  rewrite !andb_true_iff in H1. lia.
Qed.

Lemma transformByte_byte (b pos kh kl : Z) : is_byte (transformByte b pos kh kl).
Proof.
  unfold transformByte. apply nibbles_join; apply spec_shuffle_nibble.
Qed.

Lemma transformByte_involutive (b pos kh kl : Z) :
  is_byte b -> transformByte (transformByte b pos kh kl) pos kh kl = b.
Proof.
  intros Hb. destruct (byte_split b Hb) as [Hh [Hl Hjoin]].
  pose proof (nibbles_join
                (spec_shuffle (Z.shiftr b 4) pos kh kl)
                (spec_shuffle (Z.land b 15) (pos + 1) kh kl)
                (spec_shuffle_nibble _ _ _ _) (spec_shuffle_nibble _ _ _ _))
    as Hjoin'.
  cbv zeta in Hjoin'. destruct Hjoin' as [_ [E1 E2]].
  unfold transformByte. rewrite E1, E2.
  rewrite !spec_shuffle_involutive by assumption. exact Hjoin.
Qed.

Lemma transformPayload_bytes (data : list Z) :
  forall pos kh kl, Forall is_byte (transformPayload data pos kh kl).
Proof.
  induction data as [|d rest IH]; intros; simpl; constructor;
    [apply transformByte_byte | apply IH].
Qed.

Lemma transformPayload_involutive (data : list Z) :
  forall pos kh kl,
    Forall is_byte data ->
    transformPayload (transformPayload data pos kh kl) pos kh kl = data.
Proof.
  induction data as [|d rest IH]; intros pos kh kl Hdata; [reflexivity|].
  inversion Hdata as [|? ? Hd Hrest]; subst. cbn [transformPayload].
  now rewrite transformByte_involutive, IH.
Qed.

(** C2.  With a fixed key byte, transforming a payload of bytes twice gives
    the payload back: the first call succeeds, and the call on its result
    returns the original payload. *)
Theorem encDecBytes_self_inverse :
  forall (k : Z) (p : list Z),
    0 <= k < 256 ->
    Forall is_byte p ->
    exists c,
      encDecBytes p (format_02x k) = Ok c /\
      encDecBytes c (format_02x k) = Ok p.
Proof.
  intros k p Hk Hp.
  pose proof (int_16_format_02x k Hk) as Hkey.
  exists (transformPayload p 0 (Z.shiftr k 4) (Z.land k 15)). split.
  - now apply encDecBytes_spec.
  - rewrite (encDecBytes_spec _ _ _ Hkey).
    now rewrite transformPayload_involutive.
Qed.

Lemma encDecBytes_self_inverse_witness :
  exists c,
    encDecBytes [0x2a; 0x00; 0x01; 0xff; 0xff] (format_02x 0x5a) = Ok c /\
    encDecBytes c (format_02x 0x5a) = Ok [0x2a; 0x00; 0x01; 0xff; 0xff].
Proof.
  apply (encDecBytes_self_inverse 0x5a [0x2a; 0x00; 0x01; 0xff; 0xff]).
  - lia.
  - repeat constructor; unfold is_byte; lia.
Defined.

(** C10.  Whatever the data and the key text, when the key text reads as a
    number [encDecBytes] returns a list as long as its input whose elements
    all lie in 0..255; it raises only when the key text does not read. *)
Theorem encDecBytes_length_and_range :
  forall (data : list Z) (key : string) (k : Z),
    int_16 key = Ok k ->
    exists out,
      encDecBytes data key = Ok out /\
      List.length out = List.length data /\
      Forall (fun x => 0 <= x <= 255) out.
Proof.
  intros data key k Hk.
  exists (transformPayload data 0 (Z.shiftr k 4) (Z.land k 15)).
  split; [now apply encDecBytes_spec | split].
  - apply transformPayload_length.
  - eapply Forall_impl; [|apply transformPayload_bytes].
    unfold is_byte. intros; lia.
Qed.

Lemma encDecBytes_length_and_range_witness :
  exists out,
    encDecBytes [300; -7; 0x3d] "E1" = Ok out /\
    List.length out = 3%nat /\
    Forall (fun x => 0 <= x <= 255) out.
Proof.
  exact (encDecBytes_length_and_range [300; -7; 0x3d] "E1" 0xe1 eq_refl).
Defined.

End Cipher.


(** ** The key search *)

Section KeySearch.

Import BtEncoder.

(** One pass of the loop body decides [key_check]. *)
Lemma key_check_spec (payload : list Z) (k : Z) :
  0 <= k < 256 ->
  payload <> [] ->
  exists out first,
    encDecBytes payload (format_02x k) = Ok out /\
    getitem out 0 = Ok first /\
    key_check payload k = (first =? k).
Proof.
  intros Hk Hne. destruct payload as [|b rest]; [congruence|].
  pose proof (encDecBytes_spec (b :: rest) _ _ (int_16_format_02x k Hk)) as E.
  cbn [transformPayload] in E.
  eexists. eexists. split; [exact E|]. split; [reflexivity|].
  unfold key_check. now rewrite E.
Qed.

(** The loop returns the text of the first key of [keys] that passes the
    check, and [None] when none does. *)
Lemma bruteforce_loop_find (payload : list Z) (keys : list Z) :
  payload <> [] ->
  Forall (fun k => 0 <= k < 256) keys ->
  bruteforce_loop payload keys
  = Ok (option_map format_02x (find (key_check payload) keys)).
Proof.
  intros Hne Hkeys. induction Hkeys as [|k rest Hk _ IH]; [reflexivity|].
  cbn [bruteforce_loop find].
  destruct (key_check_spec payload k Hk Hne) as [out [first [E1 [E2 E3]]]].
  rewrite E1. cbn [bind]. rewrite E2. cbn [bind].
  rewrite (int_16_format_02x k Hk). cbn [bind].
  rewrite E3. destruct (first =? k); [reflexivity | exact IH].
Qed.

(** [find] on an ascending range stops at the least element that passes. *)
Lemma find_seq_least (f : Z -> bool) (len start : nat) :
  match find f (map Z.of_nat (seq start len)) with
  | Some k =>
      Z.of_nat start <= k < Z.of_nat (start + len) /\ f k = true /\
      forall j, Z.of_nat start <= j < k -> f j = false
  | None => forall j, Z.of_nat start <= j < Z.of_nat (start + len) -> f j = false
  end.
Proof.
  revert start. induction len as [|len IH]; intros start.
  - simpl. intros j Hj. lia.
  - cbn [seq map find]. destruct (f (Z.of_nat start)) eqn:E.
    + split; [lia|]. split; [exact E|]. intros j Hj. lia.
    + specialize (IH (S start)).
      destruct (find f (map Z.of_nat (seq (S start) len))) as [k|].
      * destruct IH as [Hk [Hfk Hleast]]. split; [lia|]. split; [exact Hfk|].
        intros j Hj. destruct (Z.eq_dec j (Z.of_nat start)) as [->|Hne];
          [exact E | apply Hleast; lia].
      * intros j Hj. destruct (Z.eq_dec j (Z.of_nat start)) as [->|Hne];
          [exact E | apply IH; lia].
Qed.

(** C3.  On a non-empty payload the key search does not raise; it returns
    the text of the least candidate in 0..255 that passes the check (decoding
    the payload with the candidate gives a first byte equal to the
    candidate), and it returns [None] exactly when no candidate in 0..255
    passes. *)
Theorem bruteforce_key_least :
  forall (data : string) (payload : list Z),
    mapM int_16 (split data) = Ok payload ->
    payload <> [] ->
    exists r,
      bruteforce_key data = Ok r /\
      match r with
      | Some key_hex =>
          exists k, key_hex = format_02x k /\ 0 <= k < 256 /\
                    key_check payload k = true /\
                    forall j, 0 <= j < k -> key_check payload j = false
      | None => True
      end /\
      (r = None <-> forall k, 0 <= k < 256 -> key_check payload k = false).
Proof.
  intros data payload Hdata Hne. unfold bruteforce_key.
  rewrite Hdata. cbn [bind].
  rewrite bruteforce_loop_find;
    [|assumption | apply Forall_forall; intros k Hk; now apply In_range in Hk].
  eexists. split; [reflexivity|].
  pose proof (find_seq_least (key_check payload) 256 0) as Hfind.
  fold (range 256) in Hfind.
  destruct (find (key_check payload) (range 256)) as [k|]; cbn [option_map].
  - destruct Hfind as [Hk [Hfk Hleast]]. split.
    + exists k. repeat split; try assumption; try lia.
    + split; [discriminate|]. intros Hnone.
      rewrite (Hnone k) in Hfk by lia. discriminate.
  - split; [exact I|]. split; [|reflexivity].
    intros _ k Hk. apply Hfind. lia.
Qed.

Lemma bruteforce_key_least_witness :
  exists r,
    bruteforce_key "77 e0 3d" = Ok r /\
    match r with
    | Some key_hex =>
        exists k, key_hex = format_02x k /\ 0 <= k < 256 /\
                  key_check [0x77; 0xe0; 0x3d] k = true /\
                  forall j, 0 <= j < k -> key_check [0x77; 0xe0; 0x3d] j = false
    | None => True
    end /\
    (r = None <->
     forall k, 0 <= k < 256 -> key_check [0x77; 0xe0; 0x3d] k = false).
Proof.
  apply (bruteforce_key_least "77 e0 3d" [0x77; 0xe0; 0x3d]).
  - reflexivity.
  - discriminate.
Defined.

End KeySearch.

(** ** The character codec *)

Section CharacterCodec.

Import JuraEncoder.

Lemma no_ValueError_bind {A B : Type} (m : result A) (k : A -> result B) :
  no_ValueError m -> (forall a, no_ValueError (k a)) -> no_ValueError (bind m k).
Proof. destruct m as [a|e]; simpl; intros Hm Hk; [apply Hk | exact Hm]. Qed.

Lemma no_ValueError_getitem {A : Type} (l : list A) (i : Z) :
  no_ValueError (getitem l i).
Proof.
  unfold getitem. destruct (_ || _); [exact I|].
  destruct (nth_error _ _); exact I.
Qed.

Lemma no_ValueError_setitem {A : Type} (l : list A) (i : Z) (x : A) :
  no_ValueError (setitem l i x).
Proof. unfold setitem. destruct (_ || _); exact I. Qed.

Lemma no_ValueError_foldM {A S : Type} (body : S -> A -> result S) (l : list A) :
  (forall s x, no_ValueError (body s x)) ->
  forall s, no_ValueError (foldM body l s).
Proof.
  intros Hbody. induction l as [|x rest IH]; intros s; simpl; [exact I|].
  apply no_ValueError_bind; [apply Hbody | apply IH].
Qed.

Lemma no_ValueError_decode (bs : list Z) : no_ValueError (decode bs).
Proof.
  induction bs as [|b rest IH]; simpl; [exact I|].
  destruct (b <? 128); [|exact I].
  apply no_ValueError_bind; [exact IH | intros; exact I].
Qed.

Lemma no_ValueError_encode_char (c : Z) : no_ValueError (encode_char c).
Proof.
  unfold encode_char.
  repeat match goal with |- context [if ?b then _ else _] => destruct b end;
    exact I.
Qed.

Lemma no_ValueError_mapM {A B : Type} (f : A -> result B) (l : list A) :
  (forall x, no_ValueError (f x)) -> no_ValueError (mapM f l).
Proof.
  intros Hf. induction l as [|x rest IH]; simpl; [exact I|].
  apply no_ValueError_bind; [apply Hf|]. intros y.
  apply no_ValueError_bind; [exact IH | intros; exact I].
Qed.

Ltac no_value_error :=
  repeat first
    [ apply no_ValueError_getitem
    | apply no_ValueError_setitem
    | apply no_ValueError_decode
    | apply no_ValueError_bind; [|intros ?] ].

Lemma no_ValueError_tojura_step c bytes i : no_ValueError (tojura_step c bytes i).
Proof. unfold tojura_step. no_value_error. Qed.

Lemma no_ValueError_fromjura_step bytes out i :
  no_ValueError (fromjura_step bytes out i).
Proof. unfold fromjura_step. no_value_error. Qed.

(** Without [hex]: [tojura] raises its length error on every input that is
    not exactly one character and [fromjura] raises its length error on every
    list that has not exactly four bytes; the result is then the error alone.
    On an input of the right length neither raises a [ValueError]. *)
Theorem codec_invalid_length :
  (forall letter : list Z,
      (List.length letter <> 1%nat ->
       tojura letter = Raise (ValueError "Needs a single byte")) /\
      (List.length letter = 1%nat -> no_ValueError (tojura letter))) /\
  (forall bytes : list bitarray,
      (List.length bytes <> 4%nat ->
       fromjura bytes = Raise (ValueError "Needs an array of size 4")) /\
      (List.length bytes = 4%nat -> no_ValueError (fromjura bytes))).
Proof.
  split.
  - intros letter. unfold tojura. split; intros Hlen.
    + apply Nat.eqb_neq in Hlen. now rewrite Hlen.
    + apply Nat.eqb_eq in Hlen. rewrite Hlen. cbn [negb].
      apply no_ValueError_bind.
      * unfold encode. apply no_ValueError_bind; [|intros; exact I].
        apply no_ValueError_mapM, no_ValueError_encode_char.
      * intros bs. apply no_ValueError_foldM. intros.
        apply no_ValueError_tojura_step.
  - intros bytes. unfold fromjura. split; intros Hlen.
    + apply Nat.eqb_neq in Hlen. now rewrite Hlen.
    + apply Nat.eqb_eq in Hlen. rewrite Hlen. cbn [negb].
      apply no_ValueError_bind; [|intros; apply no_ValueError_decode].
      apply no_ValueError_foldM. intros. apply no_ValueError_fromjura_step.
Qed.

Lemma codec_invalid_length_witness :
  tojura [72; 105] = Raise (ValueError "Needs a single byte") /\
  no_ValueError (tojura [72]) /\
  fromjura [base_layout] = Raise (ValueError "Needs an array of size 4") /\
  no_ValueError (fromjura [base_layout; base_layout; base_layout; base_layout]).
Proof.
  destruct codec_invalid_length as [Hto Hfrom].
  split; [apply (Hto [72; 105]); simpl; lia|].
  split; [apply (Hto [72]); reflexivity|].
  split; [apply (Hfrom [base_layout]); simpl; lia|].
  apply (Hfrom [base_layout; base_layout; base_layout; base_layout]).
  reflexivity.
Defined.

(** The bits [tojura] packs are the last eight bits of the character's
    UTF-8 encoding. *)
Lemma tojura_bits (c : Z) (bs : list Z) (b0 b1 b2 b3 b4 b5 b6 b7 : bool) :
  encode [c] = Ok bs ->
  last_n (frombytes [] bs) 8 = [b0; b1; b2; b3; b4; b5; b6; b7] ->
  tojura [c]
  = Ok [wire_byte b6 b7; wire_byte b4 b5; wire_byte b2 b3; wire_byte b0 b1].
Proof.
  intros Henc Hlast. unfold tojura. cbn [List.length Nat.eqb negb].
  rewrite Henc. cbn [bind]. rewrite Hlast. reflexivity.
Qed.

(** The last byte of the UTF-8 encoding of a code point. *)
Lemma encode_last (c : Z) (bs : list Z) :
  encode [c] = Ok bs ->
  last_n (frombytes [] bs) 8 = byte_bits (last bs 0) /\
  (c < 128 -> last bs 0 = c).
Proof.
  unfold encode, encode_char. cbn [mapM].
  destruct (Z.ltb_spec c 128) as [H1|H1].
  { cbn [bind List.concat app]. intros [= <-]. split; reflexivity. }
  destruct (c <? 2048).
  { cbn [bind List.concat app]. intros [= <-]. split; [reflexivity | lia]. }
  destruct (c <? 65536).
  { destruct (_ && _); cbn [bind List.concat app]; [discriminate|].
    intros [= <-]. split; [reflexivity | lia]. }
  cbn [bind List.concat app]. intros [= <-]. split; [reflexivity | lia].
Qed.

Lemma carries_wire_byte (x y : bool) : carries (wire_byte x y) (x, y).
Proof.
  unfold carries. repeat split.
  intros j Hj H2 H5.
  do 8 (destruct j as [|j]; [try reflexivity; congruence|]). lia.
Qed.

(** The layout of the four bytes.  For a single character [c] that UTF-8
    can encode, [tojura] returns exactly four bytes, byte [i] carrying group [3 - i] of
    the last byte [e] of the encoding: the group's first bit at position 2,
    its second bit at position 5, the template [01011011] at the six other
    positions.  For [c] below 128 the byte [e] is [c] itself. *)
Theorem tojura_wire_layout :
  forall (c : Z) (bs : list Z),
    encode [c] = Ok bs ->
    exists ws,
      tojura [c] = Ok ws /\
      wire_char (last bs 0) ws /\
      (0 <= c < 128 -> wire_char c ws).
Proof.
  intros c bs Henc. destruct (encode_last c bs Henc) as [Hlast Hascii].
  set (e := last bs 0) in *.
  assert (Hwire : forall ws,
             ws = [wire_byte (Z.testbit e 1) (Z.testbit e 0);
                   wire_byte (Z.testbit e 3) (Z.testbit e 2);
                   wire_byte (Z.testbit e 5) (Z.testbit e 4);
                   wire_byte (Z.testbit e 7) (Z.testbit e 6)] ->
             wire_char e ws).
  { intros ws ->. split; [reflexivity|]. intros i w Hw.
    do 4 (destruct i as [|i];
          [injection Hw as <-; apply carries_wire_byte|]).
    destruct i; discriminate. }
  eexists. split; [exact (tojura_bits c bs _ _ _ _ _ _ _ _ Henc Hlast)|].
  split; [now apply Hwire|].
  intros Hc. rewrite <- (Hascii (proj2 Hc)). now apply Hwire.
Qed.

Lemma tojura_wire_layout_witness :
  exists ws, tojura [65] = Ok ws /\ wire_char 65 ws /\ (0 <= 65 < 128 -> wire_char 65 ws).
Proof. exact (tojura_wire_layout 65 [65] eq_refl). Defined.

(** C5 fails on the code for a character of more than one byte, which the
    guard of [tojura] lets through (its message asks for a single byte, its
    test counts characters): [chr(233)] is encoded as the two bytes [C3 A9],
    and the four bytes carry the bits of [A9]; byte 3 carries [1, 0], not
    group 0 of [233], which is [1, 1]. *)
Lemma tojura_wire_layout_counterexample :
  ~ (exists ws, tojura [233] = Ok ws /\ wire_char 233 ws).
Proof.
  intros [ws [Hto [_ Hwire]]].
  vm_compute in Hto. injection Hto as <-.
  destruct (Hwire 3%nat _ eq_refl) as [_ [_ [H5 _]]].
  vm_compute in H5. discriminate.
Qed.

(** *** Decoding what was encoded *)

(** [fromjura] reads back the eight bits the four bytes carry. *)
Lemma fromjura_wire (b0 b1 b2 b3 b4 b5 b6 b7 : bool) :
  fromjura [wire_byte b6 b7; wire_byte b4 b5; wire_byte b2 b3; wire_byte b0 b1]
  = decode (tobytes [b0; b1; b2; b3; b4; b5; b6; b7]).
Proof. reflexivity. Qed.

Lemma bits_value_byte_bits (b : Z) : is_byte b -> bits_value (byte_bits b) = b.
Proof.
  unfold is_byte. intros Hb.
  apply (forallb_range (fun b => bits_value (byte_bits b) =? b) 256 eq_refl)
    in Hb.
  now apply Z.eqb_eq in Hb.
Qed.

Lemma tobytes_byte_bits (b : Z) : is_byte b -> tobytes (byte_bits b) = [b].
Proof.
  intros Hb. change (tobytes (byte_bits b)) with [bits_value (byte_bits b)].
  now rewrite bits_value_byte_bits.
Qed.

(** The round trip on one-byte characters.  For every character [c] below
    128, [tojura] returns four bytes and [fromjura] on them returns [c]. *)
Theorem fromjura_tojura :
  forall c : Z,
    0 <= c < 128 ->
    exists ws, tojura [c] = Ok ws /\ fromjura ws = Ok [c].
Proof.
  intros c Hc.
  assert (Henc : encode [c] = Ok [c]).
  { unfold encode, encode_char. cbn [mapM].
    destruct (Z.ltb_spec c 128); [reflexivity | lia]. }
  eexists. split.
  - eapply tojura_bits; [exact Henc | reflexivity].
  - rewrite fromjura_wire.
    change [Z.testbit c 7; Z.testbit c 6; Z.testbit c 5; Z.testbit c 4;
            Z.testbit c 3; Z.testbit c 2; Z.testbit c 1; Z.testbit c 0]
      with (byte_bits c).
    rewrite tobytes_byte_bits by (unfold is_byte; lia).
    cbn [decode]. destruct (Z.ltb_spec c 128); [reflexivity | lia].
Qed.

Lemma fromjura_tojura_witness :
  exists ws, tojura [65] = Ok ws /\ fromjura ws = Ok [65].
Proof. apply (fromjura_tojura 65). lia. Defined.

(** C4 fails on the code from 128 on, for the characters of more than one
    byte that the guard of [tojura] lets through: [tojura] packs the last
    UTF-8 byte [A9] of [chr(233)], and [fromjura] raises
    [UnicodeDecodeError] on the four bytes [tojura] returned. *)
Lemma fromjura_tojura_counterexample :
  (ws <- tojura [233] ;; fromjura ws) = Raise UnicodeDecodeError /\
  ~ (exists ws, tojura [233] = Ok ws /\ fromjura ws = Ok [233]).
Proof.
  split; [reflexivity|].
  intros [ws [Hto Hfrom]]. vm_compute in Hto. injection Hto as <-.
  vm_compute in Hfrom. discriminate.
Qed.

End CharacterCodec.



(** ** The statistics *)

Section Statistics.

Import Script.

Lemma Forall_firstn_skipn {A : Type} (P : A -> Prop) (n : nat) (l : list A) :
  Forall P l -> Forall P (firstn n l) /\ Forall P (skipn n l).
Proof.
  intros H. rewrite <- (firstn_skipn n l) in H. now apply Forall_app in H.
Qed.

(** The text of a group of bytes reads as the group's big-endian value. *)
Lemma int_16_digits_join (g : list Z) :
  Forall is_byte g ->
  forall acc,
    int_16_digits (join (map format_02x g)) acc
    = Some (fold_left (fun a d => 256 * a + d) g acc).
Proof.
  induction 1 as [|d g Hd _ IH]; intros acc; [reflexivity|].
  cbn [map join fold_right fold_left]. fold (join (map format_02x g)).
  rewrite (int_16_digits_byte d acc _ Hd). apply IH.
Qed.

Lemma int_16_join (g : list Z) :
  g <> [] -> Forall is_byte g ->
  int_16 (join (map format_02x g)) = Ok (big_endian g).
Proof.
  intros Hne Hg. unfold int_16. rewrite (int_16_digits_join g Hg).
  destruct g as [|d g]; [congruence|].
  cbn [map join fold_right]. inversion Hg as [|? ? Hd _]; subst.
  rewrite (format_02x_byte d Hd). reflexivity.
Qed.

(** The comprehension of [reassemble] from index [i] on is the list of the
    groups of the bytes from [i] on. *)
Lemma reassemble_from (decoded : list Z) (w : nat) :
  (0 < w)%nat ->
  Forall is_byte decoded ->
  forall (fuel : nat) (i : Z),
    0 <= i ->
    mapM
      (fun i =>
         int_16
           (join (map format_02x
                    (slice decoded (Z.to_nat i) (Z.to_nat (i + Z.of_nat w))))))
      (range_from fuel i (Z.of_nat (List.length decoded)) (Z.of_nat w))
    = Ok (map big_endian (chunks_fuel fuel w (skipn (Z.to_nat i) decoded))).
Proof.
  intros Hw Hbytes. induction fuel as [|fuel IH]; intros i Hi; [reflexivity|].
  cbn [range_from chunks_fuel].
  destruct (Z.ltb_spec i (Z.of_nat (List.length decoded))) as [Hlt|Hge].
  - assert (Hrest : skipn (Z.to_nat i) decoded <> []).
    { intros E. apply skipn_all_iff in E. lia. }
    destruct (skipn (Z.to_nat i) decoded) as [|x rest] eqn:Eskip;
      [congruence|]. rewrite <- Eskip.
    cbn [mapM]. unfold slice at 1.
    replace (Z.to_nat (i + Z.of_nat w) - Z.to_nat i)%nat with w by lia.
    rewrite int_16_join.
    + cbn [bind].
      replace (skipn w (skipn (Z.to_nat i) decoded))
        with (skipn (Z.to_nat (i + Z.of_nat w)) decoded)
        by (rewrite skipn_skipn; f_equal; lia).
      rewrite IH by lia. reflexivity.
    + rewrite Eskip. destruct w; [lia | discriminate].
    + apply Forall_firstn_skipn. now apply Forall_firstn_skipn.
  - rewrite (skipn_all2 decoded) by lia. reflexivity.
Qed.

Lemma concat_chunks_fuel {A : Type} (w : nat) :
  (0 < w)%nat ->
  forall (fuel : nat) (l : list A),
    (List.length l <= fuel)%nat -> List.concat (chunks_fuel fuel w l) = l.
Proof.
  intros Hw. induction fuel as [|fuel IH]; intros l Hl.
  - destruct l; [reflexivity | simpl in Hl; lia].
  - destruct l as [|x l]; [reflexivity|].
    cbn [chunks_fuel List.concat]. rewrite IH.
    + apply firstn_skipn.
    + rewrite length_skipn. cbn [List.length] in Hl |- *. lia.
Qed.

Lemma log_statistics_from_lines (products : list product) (decoded : list Z) :
  forall (i0 : Z) (line : product_line),
    In line (log_statistics_from i0 decoded products) <->
    exists (j : nat) (v : Z) (p : product),
      nth_error decoded j = Some v /\
      find_product products (i0 + Z.of_nat j) = Some p /\
      line = (i0 + Z.of_nat j, Name p, if v =? 65535 then 0 else v).
Proof.
  induction decoded as [|byte rest IH]; intros i0 line.
  - simpl. split; [tauto|]. intros [j [v [p [Hj _]]]]. destruct j; discriminate.
  - cbn [log_statistics_from]. split.
    + intros Hin.
      assert (Hrest : In line (log_statistics_from (i0 + 1) rest products) ->
                      exists j v p,
                        nth_error (byte :: rest) j = Some v /\
                        find_product products (i0 + Z.of_nat j) = Some p /\
                        line = (i0 + Z.of_nat j, Name p,
                                if v =? 65535 then 0 else v)).
      { intros Hin'. apply IH in Hin'. destruct Hin' as [j [v [p [H1 [H2 H3]]]]].
        exists (S j), v, p.
        replace (i0 + Z.of_nat (S j)) with (i0 + 1 + Z.of_nat j) by lia.
        auto. }
      destruct (find_product products i0) as [p|] eqn:Ep; [|auto].
      destruct Hin as [<-|Hin]; [|auto].
      exists 0%nat, byte, p. rewrite Z.add_0_r. auto.
    + intros [j [v [p [H1 [H2 H3]]]]]. destruct j as [|j].
      * injection H1 as ->. rewrite Z.add_0_r in H2, H3. rewrite H2.
        left. now subst.
      * assert (Hin : In line (log_statistics_from (i0 + 1) rest products)).
        { apply IH. exists j, v, p.
          replace (i0 + 1 + Z.of_nat j) with (i0 + Z.of_nat (S j)) by lia.
          auto. }
        destruct (find_product products i0); [right|]; exact Hin.
Qed.

(** C6, amended.  For a sequence of bytes and a field width of 2 or 3 the
    reassembly cuts the sequence into consecutive groups of that many bytes,
    a shorter last group included, and returns the big-endian value of each
    group in order, unchanged: [[0,1,0,2]] gives [[1,2]] and
    [[0xFF,0xFF,0,5]] gives [[65535,5]].  The value 65535 is replaced by 0
    only in the line [log_statistics] logs for an index with a product. *)
Theorem reassemble_groups :
  forall (decoded : list Z) (fieldWidth : nat),
    fieldWidth = 2%nat \/ fieldWidth = 3%nat ->
    Forall is_byte decoded ->
    reassemble decoded (Z.of_nat fieldWidth)
    = Ok (map big_endian (chunks fieldWidth decoded)) /\
    List.concat (chunks fieldWidth decoded) = decoded /\
    reassemble [0x00; 0x01; 0x00; 0x02] 2 = Ok [1; 2] /\
    reassemble [0xFF; 0xFF; 0x00; 0x05] 2 = Ok [65535; 5] /\
    forall (products : list product) (counters : list Z) (line : product_line),
      In line (log_statistics counters products) <->
      exists (i : nat) (v : Z) (p : product),
        nth_error counters i = Some v /\
        find_product products (Z.of_nat i) = Some p /\
        line = (Z.of_nat i, Name p, if v =? 65535 then 0 else v).
Proof.
  intros decoded w Hw Hbytes.
  assert (Hpos : (0 < w)%nat) by lia.
  split; [|split; [|split; [|split]]].
  - unfold reassemble, range3, chunks.
    rewrite Z.sub_0_r, Nat2Z.id.
    now rewrite (reassemble_from decoded w Hpos Hbytes _ 0 (Z.le_refl 0)).
  - now apply concat_chunks_fuel.
  - reflexivity.
  - reflexivity.
  - intros products counters line. unfold log_statistics.
    apply (log_statistics_from_lines products counters 0 line).
Qed.

Lemma reassemble_groups_witness :
  reassemble [0x01; 0x02; 0x03; 0x00; 0xFF; 0xFF; 0x07] (Z.of_nat 3)
  = Ok (map big_endian
          (chunks 3 [0x01; 0x02; 0x03; 0x00; 0xFF; 0xFF; 0x07])).
Proof.
  refine (proj1 (reassemble_groups
                   [0x01; 0x02; 0x03; 0x00; 0xFF; 0xFF; 0x07] 3 _ _)).
  - right. reflexivity.
  - repeat constructor; unfold is_byte; lia.
Defined.

(** C6 as stated fails twice: a group that spells 65535 is returned as
    65535, not 0, and a shorter last group is returned, not dropped. *)
Lemma reassemble_groups_counterexample :
  reassemble [0xFF; 0xFF; 0x00; 0x05] 2 = Ok [65535; 5] /\
  spec_reassemble [0xFF; 0xFF; 0x00; 0x05] 2 = [0; 5] /\
  reassemble [0x01; 0x02; 0x03] 2 = Ok [258; 3] /\
  spec_reassemble [0x01; 0x02; 0x03] 2 = [258] /\
  ~ (forall decoded : list Z,
        Forall is_byte decoded ->
        reassemble decoded 2 = Ok (spec_reassemble decoded 2)).
Proof.
  repeat split; try reflexivity.
  intros H. specialize (H [0xFF; 0xFF; 0x00; 0x05]).
  assert (Hb : Forall is_byte [0xFF; 0xFF; 0x00; 0x05])
    by (repeat constructor; unfold is_byte; lia).
  specialize (H Hb). vm_compute in H. discriminate.
Qed.

End Statistics.

(** ** The alert scan *)

Section Alerts.

Import Script.

(** The loop's test [(byte >> s) & 1] is bit [s] of [byte]. *)
Lemma alert_test (byte s : Z) :
  negb (Z.land (Z.shiftr byte s) 1 =? 0) = Z.testbit byte s.
Proof.
  rewrite Z.testbit_odd. change 1 with (Z.ones 1) at 1.
  rewrite Z.land_ones by lia. change (2 ^ 1) with 2.
  rewrite Zmod_odd. now destruct (Z.odd (Z.shiftr byte s)).
Qed.

(** Every scanned index reads a byte of the sequence, past the first. *)
Lemma alert_offset (decoded : list Z) (i : Z) :
  0 <= i < (Z.of_nat (List.length decoded) - 1) * 8 ->
  1 <= Z.shiftr i 3 + 1 < Z.of_nat (List.length decoded) /\
  0 <= 7 - Z.land i 7 <= 7.
Proof.
  intros Hi. rewrite Z.shiftr_div_pow2 by lia. change (2 ^ 3) with 8.
  change 7 with (Z.ones 3) at 2 4. rewrite Z.land_ones by lia.
  change (2 ^ 3) with 8.
  pose proof (Z.mod_pos_bound i 8 ltac:(lia)).
  pose proof (Z.div_pos i 8 ltac:(lia) ltac:(lia)).
  assert (i / 8 < Z.of_nat (List.length decoded) - 1)
    by (apply Z.div_lt_upper_bound; lia).
  lia.
Qed.

Lemma alert_loop_step (decoded : list Z) (alerts : list (option string))
    (i : Z) (rest : list Z) (log : list alert_line) :
  0 <= i < (Z.of_nat (List.length decoded) - 1) * 8 ->
  alert_loop decoded alerts (i :: rest) log
  = if alert_bit decoded i then
      match getitem alerts i with
      | Raise e => (log, Some e)
      | Ok name => alert_loop decoded alerts rest (log ++ [(i, name)])
      end
    else alert_loop decoded alerts rest log.
Proof.
  intros Hi. destruct (alert_offset decoded i Hi) as [Hoff _].
  cbn [alert_loop]. rewrite (getitem_nth decoded _ 0) by lia.
  rewrite alert_test. unfold alert_bit.
  now rewrite (Z.add_comm 1 (Z.shiftr i 3)).
Qed.

(** When the table has an entry for every active bit scanned, the loop
    logs the active indices in order and ends normally. *)
Lemma alert_loop_covered (decoded : list Z) (alerts : list (option string)) :
  forall (indices : list Z) (log : list alert_line),
    (forall i, In i indices ->
               0 <= i < (Z.of_nat (List.length decoded) - 1) * 8) ->
    (forall i, In i indices -> alert_bit decoded i = true ->
               i < Z.of_nat (List.length alerts)) ->
    alert_loop decoded alerts indices log
    = (log ++ map (fun i => (i, nth (Z.to_nat i) alerts None))
                  (filter (alert_bit decoded) indices),
       None).
Proof.
  induction indices as [|i rest IH]; intros log Hrange Hcov.
  - simpl. now rewrite app_nil_r.
  - rewrite alert_loop_step by (apply Hrange; now left).
    assert (Hrange' : forall k, In k rest ->
               0 <= k < (Z.of_nat (List.length decoded) - 1) * 8)
      by (intros; apply Hrange; now right).
    assert (Hcov' : forall k, In k rest -> alert_bit decoded k = true ->
               k < Z.of_nat (List.length alerts))
      by (intros; apply Hcov; [now right | assumption]).
    cbn [filter]. destruct (alert_bit decoded i) eqn:Ebit.
    + assert (0 <= i < Z.of_nat (List.length alerts)).
      { split; [apply Hrange; now left | apply Hcov; [now left | exact Ebit]]. }
      rewrite (getitem_nth alerts i None) by assumption.
      rewrite (IH _ Hrange' Hcov').
      cbn [map]. now rewrite <- app_assoc.
    + apply (IH _ Hrange' Hcov').
Qed.

(** An active bit scanned whose index is at or past the end of the table
    stops the loop with [IndexError]. *)
Lemma alert_loop_beyond (decoded : list Z) (alerts : list (option string)) :
  forall (indices : list Z) (log : list alert_line),
    (forall i, In i indices ->
               0 <= i < (Z.of_nat (List.length decoded) - 1) * 8) ->
    (exists i, In i indices /\ alert_bit decoded i = true /\
               Z.of_nat (List.length alerts) <= i) ->
    snd (alert_loop decoded alerts indices log) = Some IndexError.
Proof.
  induction indices as [|i rest IH]; intros log Hrange [j [Hin [Hbit Hbeyond]]].
  - destruct Hin.
  - rewrite alert_loop_step by (apply Hrange; now left).
    assert (Hrest : forall k, In k rest ->
               0 <= k < (Z.of_nat (List.length decoded) - 1) * 8)
      by (intros; apply Hrange; now right).
    destruct Hin as [->|Hin].
    + rewrite Hbit, getitem_out_of_range by assumption. reflexivity.
    + assert (Hex : exists k, In k rest /\ alert_bit decoded k = true /\
                              Z.of_nat (List.length alerts) <= k) by eauto.
      destruct (alert_bit decoded i); [|now apply IH].
      destruct (Z_lt_le_dec i (Z.of_nat (List.length alerts))) as [Hlt|Hge].
      * rewrite (getitem_nth alerts i None)
          by (split; [apply Hrange; now left | exact Hlt]).
        now apply IH.
      * now rewrite getitem_out_of_range.
Qed.

(** The scan on a table that covers the active bits.  On a sequence of
    [n >= 1] bytes the scan goes through the [(n - 1) * 8] bit indices from 0; for index [i] it reads the byte at
    offset [1 + (i >> 3)], which exists, and tests its bit [7 - (i & 7)],
    bit 7 being the most significant; with a table that has an entry for
    each active index it ends normally and logs exactly the indices whose
    bit is 1, in ascending order, each with its table entry. *)
Theorem alert_scan_bits :
  forall (decoded : list Z) (alerts : list (option string)),
    (1 <= List.length decoded)%nat ->
    let n := Z.of_nat (List.length decoded) in
    let indices := range (Z.to_nat ((n - 1) * 8)) in
    (forall i, 0 <= i < (n - 1) * 8 -> alert_bit decoded i = true ->
               i < Z.of_nat (List.length alerts)) ->
    Z.of_nat (List.length indices) = (n - 1) * 8 /\
    (forall i, In i indices <-> 0 <= i < (n - 1) * 8) /\
    (forall i, In i indices ->
               exists byte,
                 getitem decoded (1 + Z.shiftr i 3) = Ok byte /\
                 1 <= 1 + Z.shiftr i 3 /\
                 negb (Z.land (Z.shiftr byte (7 - Z.land i 7)) 1 =? 0)
                 = alert_bit decoded i) /\
    alert_scan decoded alerts
    = (map (fun i => (i, nth (Z.to_nat i) alerts None))
           (filter (alert_bit decoded) indices), None) /\
    (forall i, In i (map fst (fst (alert_scan decoded alerts))) <->
               0 <= i < (n - 1) * 8 /\ alert_bit decoded i = true).
Proof.
  intros decoded alerts Hn n indices Hcov.
  assert (Hin : forall i, In i indices <-> 0 <= i < (n - 1) * 8).
  { intros i. unfold indices. rewrite In_range. lia. }
  assert (Hscan : alert_scan decoded alerts
                  = (map (fun i => (i, nth (Z.to_nat i) alerts None))
                         (filter (alert_bit decoded) indices), None)).
  { unfold alert_scan. fold n. fold indices.
    rewrite alert_loop_covered; [reflexivity | |].
    - intros i Hi. now apply Hin.
    - intros i Hi. apply Hcov. now apply Hin. }
  split; [|split; [exact Hin | split; [|split; [exact Hscan|]]]].
  - unfold indices, range. rewrite length_map, length_seq. lia.
  - intros i Hi. apply Hin in Hi.
    destruct (alert_offset decoded i Hi) as [Hoff _].
    exists (nth (Z.to_nat (1 + Z.shiftr i 3)) decoded 0).
    split; [apply getitem_nth; lia|]. split; [lia|].
    rewrite alert_test. reflexivity.
  - intros i. rewrite Hscan. cbn [fst]. rewrite map_map. cbn [fst].
    rewrite map_id, filter_In, Hin. reflexivity.
Qed.

Lemma alert_scan_bits_witness :
  alert_scan [0x00; 0x01; 0x80] (repeat (Some "alert"%string) 9)
  = (map (fun i => (i, nth (Z.to_nat i) (repeat (Some "alert"%string) 9) None))
         (filter (alert_bit [0x00; 0x01; 0x80]) (range 16)), None).
Proof.
  refine (proj1 (proj2 (proj2 (proj2
            (alert_scan_bits [0x00; 0x01; 0x80]
               (repeat (Some "alert"%string) 9) _ _))))).
  - simpl. lia.
  - intros i Hi Hbit. cbn [List.length repeat] in Hi |- *.
    assert (Hall : forallb (fun i => negb (alert_bit [0x00; 0x01; 0x80] i)
                                     || (i <? 9)) (range 16) = true)
      by reflexivity.
    pose proof (forallb_range _ 16 Hall i ltac:(lia)) as H.
    cbv beta in H. rewrite Hbit in H. cbn [negb orb] in H. lia.
Defined.

(** C9 fails on the code: with the table [extract_alerts] builds from one
    alert of bit 0, a status whose bit 1 is set stops the scan with
    [IndexError]; in general so does any active bit at or past the end of
    the table. *)
Theorem alert_scan_beyond_table :
  extract_alerts [ {| Bit := 0; AlertName := Some "descale"%string |} ]
  = Ok [Some "descale"%string] /\
  alert_scan [0x00; 0x40] [Some "descale"%string] = ([], Some IndexError) /\
  forall (decoded : list Z) (alerts : list (option string)) (i : Z),
    0 <= i < (Z.of_nat (List.length decoded) - 1) * 8 ->
    alert_bit decoded i = true ->
    Z.of_nat (List.length alerts) <= i ->
    snd (alert_scan decoded alerts) = Some IndexError.
Proof.
  split; [reflexivity | split; [reflexivity|]].
  intros decoded alerts i Hi Hbit Hbeyond. unfold alert_scan.
  apply alert_loop_beyond.
  - intros k Hk. apply In_range in Hk. lia.
  - exists i. split; [apply In_range; lia | auto].
Qed.

End Alerts.

(** ** More on the cipher: how it runs along a payload *)

Section CipherStream.

Import BtEncoder.

Lemma transformPayload_app (a b : list Z) :
  forall pos kh kl,
    transformPayload (a ++ b) pos kh kl
    = transformPayload a pos kh kl
      ++ transformPayload b (pos + 2 * Z.of_nat (List.length a)) kh kl.
Proof.
  induction a as [|x a IH]; intros pos kh kl.
  - cbn [app transformPayload List.length]. now rewrite Z.add_0_r.
  - cbn [app transformPayload List.length]. rewrite IH.
    do 3 f_equal. lia.
Qed.

(** The nibble transform sees its position modulo 4096. *)
Lemma spec_shuffle_period (n p kh kl m : Z) :
  spec_shuffle n (p + 4096 * m) kh kl = spec_shuffle n p kh kl.
Proof.
  rewrite !spec_shuffle_core.
  assert (Haux : (Z.shiftr (p + 4096 * m) 4) mod 256 = (Z.shiftr p 4) mod 256).
  { rewrite !Z.shiftr_div_pow2 by lia. change (2 ^ 4) with 16.
    replace (p + 4096 * m) with (p + (256 * m) * 16) by lia.
    rewrite Z.div_add by lia.
    replace (p / 16 + 256 * m) with (p / 16 + m * 256) by lia.
    now rewrite Z.mod_add by lia. }
  rewrite Haux. f_equal.
  - replace (p + 4096 * m + kh) with (p + kh + (256 * m) * 16) by lia.
    now rewrite Z.mod_add by lia.
  - set (aux := (Z.shiftr p 4) mod 256).
    replace (kl + aux - (p + 4096 * m) - kh)
      with (kl + aux - p - kh + (- (256 * m)) * 16) by lia.
    now rewrite Z.mod_add by lia.
Qed.

Lemma transformPayload_period (data : list Z) :
  forall pos kh kl m,
    transformPayload data (pos + 4096 * m) kh kl
    = transformPayload data pos kh kl.
Proof.
  induction data as [|d rest IH]; intros pos kh kl m; [reflexivity|].
  cbn [transformPayload]. f_equal.
  - unfold transformByte.
    replace (pos + 4096 * m + 1) with (pos + 1 + 4096 * m) by lia.
    now rewrite !spec_shuffle_period.
  - replace (pos + 4096 * m + 2) with (pos + 2 + 4096 * m) by lia. apply IH.
Qed.

(** The transform of a payload starts with the transform of each of its
    prefixes: a byte's image depends on the byte, its index and the key, and
    on no byte after it. *)
Theorem encDecBytes_prefix :
  forall (a b : list Z) (key : string) (k : Z),
    int_16 key = Ok k ->
    exists oa ob,
      encDecBytes a key = Ok oa /\
      encDecBytes (a ++ b) key = Ok (oa ++ ob) /\
      List.length oa = List.length a /\
      List.length ob = List.length b.
Proof.
  intros a b key k Hk.
  exists (transformPayload a 0 (Z.shiftr k 4) (Z.land k 15)).
  exists (transformPayload b (0 + 2 * Z.of_nat (List.length a))
            (Z.shiftr k 4) (Z.land k 15)).
  rewrite !(encDecBytes_spec _ _ _ Hk), transformPayload_app.
  rewrite !transformPayload_length. auto.
Qed.

Lemma encDecBytes_prefix_witness :
  exists oa ob,
    encDecBytes [0x2a; 0x00] "5a" = Ok oa /\
    encDecBytes ([0x2a; 0x00] ++ [0x01; 0xff; 0xff]) "5a" = Ok (oa ++ ob) /\
    List.length oa = 2%nat /\ List.length ob = 3%nat.
Proof.
  exact (encDecBytes_prefix [0x2a; 0x00] [0x01; 0xff; 0xff] "5a" 0x5a eq_refl).
Defined.

(** The cipher repeats every 2048 bytes (4096 nibbles): behind a block whose
    length is a multiple of 2048, the rest of a payload is transformed as a
    payload of its own. *)
Theorem encDecBytes_period :
  forall (a b : list Z) (key : string) (k : Z) (m : nat),
    int_16 key = Ok k ->
    List.length a = (2048 * m)%nat ->
    exists oa ob,
      encDecBytes a key = Ok oa /\
      encDecBytes b key = Ok ob /\
      encDecBytes (a ++ b) key = Ok (oa ++ ob).
Proof.
  intros a b key k m Hk Hlen.
  exists (transformPayload a 0 (Z.shiftr k 4) (Z.land k 15)).
  exists (transformPayload b 0 (Z.shiftr k 4) (Z.land k 15)).
  rewrite !(encDecBytes_spec _ _ _ Hk), transformPayload_app.
  replace (0 + 2 * Z.of_nat (List.length a)) with (0 + 4096 * Z.of_nat m)
    by (rewrite Hlen; lia).
  rewrite transformPayload_period. auto.
Qed.

Lemma encDecBytes_period_witness :
  exists oa ob,
    encDecBytes (repeat 0 2048) "5a" = Ok oa /\
    encDecBytes [0x2a; 0x00; 0x01] "5a" = Ok ob /\
    encDecBytes (repeat 0 2048 ++ [0x2a; 0x00; 0x01]) "5a" = Ok (oa ++ ob).
Proof.
  apply (encDecBytes_period (repeat 0 2048) [0x2a; 0x00; 0x01] "5a" 0x5a 1).
  - reflexivity.
  - apply repeat_length.
Defined.

End CipherStream.

(** ** More on the key search *)

Section KeySearchMore.

Import BtEncoder.

Lemma split_aux_blank (s : string) :
  (forall c, In c (list_ascii_of_string s) -> isspace c = true) ->
  split_aux s [] = [].
Proof.
  induction s as [|c s IH]; intros Hs; [reflexivity|].
  cbn [split_aux]. rewrite (Hs c) by (now left).
  apply IH. intros c' Hc'. apply Hs. now right.
Qed.

(** A payload text with no byte in it, empty or all blanks, makes the key
    search raise [IndexError]: the first candidate decodes it to the empty
    list, whose first element is then read. *)
Theorem bruteforce_key_blank :
  forall data : string,
    (forall c, In c (list_ascii_of_string data) -> isspace c = true) ->
    bruteforce_key data = Raise IndexError.
Proof.
  intros data Hblank. unfold bruteforce_key, split.
  rewrite (split_aux_blank data Hblank). vm_compute. reflexivity.
Qed.

Lemma bruteforce_key_blank_witness :
  bruteforce_key "  " = Raise IndexError.
Proof.
  apply bruteforce_key_blank. intros c [<-|[<-|[]]]; reflexivity.
Defined.

Lemma key_check_first_byte (b : Z) (rest1 rest2 : list Z) (k : Z) :
  0 <= k < 256 -> key_check (b :: rest1) k = key_check (b :: rest2) k.
Proof.
  intros Hk. unfold key_check.
  rewrite !(encDecBytes_spec _ _ _ (int_16_format_02x k Hk)).
  cbn [transformPayload]. reflexivity.
Qed.

Lemma find_ext_in {A : Type} (f g : A -> bool) (l : list A) :
  (forall x, In x l -> f x = g x) -> find f l = find g l.
Proof.
  induction l as [|x l IH]; intros H; [reflexivity|].
  cbn [find]. rewrite (H x) by (now left).
  destruct (g x); [reflexivity|]. apply IH. intros; apply H. now right.
Qed.

(** The key found depends on the first byte of the payload only. *)
Theorem bruteforce_key_first_byte :
  forall (data1 data2 : string) (b : Z) (rest1 rest2 : list Z),
    mapM int_16 (split data1) = Ok (b :: rest1) ->
    mapM int_16 (split data2) = Ok (b :: rest2) ->
    bruteforce_key data1 = bruteforce_key data2.
Proof.
  intros data1 data2 b rest1 rest2 H1 H2. unfold bruteforce_key.
  rewrite H1, H2. cbn [bind].
  assert (Hkeys : Forall (fun k => 0 <= k < 256) (range 256))
    by (apply Forall_forall; intros k Hk; now apply In_range in Hk).
  rewrite !bruteforce_loop_find by (assumption || discriminate).
  rewrite (find_ext_in (key_check (b :: rest1)) (key_check (b :: rest2)));
    [reflexivity|].
  intros k Hk. apply In_range in Hk. apply key_check_first_byte. exact Hk.
Qed.

Lemma bruteforce_key_first_byte_witness :
  bruteforce_key "77 e0 3d" = bruteforce_key "77 01".
Proof.
  apply (bruteforce_key_first_byte "77 e0 3d" "77 01" 0x77 [0xe0; 0x3d] [0x01]);
    vm_compute; reflexivity.
Defined.

(** A key the search returns can be used as it is: it is the text of a byte
    [k], [encDecBytes] accepts it for any data, and decoding the payload the
    key was found on gives a list that starts with [k], as
    [setup_connection] does next. *)
Theorem bruteforce_key_usable :
  forall (data key : string) (payload : list Z),
    mapM int_16 (split data) = Ok payload ->
    bruteforce_key data = Ok (Some key) ->
    exists k rest,
      0 <= k < 256 /\ key = format_02x k /\ int_16 key = Ok k /\
      encDecBytes payload key = Ok (k :: rest) /\
      forall other : list Z, exists out, encDecBytes other key = Ok out.
Proof.
  intros data key payload Hdata Hkey. unfold bruteforce_key in Hkey.
  rewrite Hdata in Hkey. cbn [bind] in Hkey.
  assert (Hne : payload <> []).
  { intros ->. vm_compute in Hkey. discriminate Hkey. }
  assert (Hkeys : Forall (fun k => 0 <= k < 256) (range 256))
    by (apply Forall_forall; intros k Hk; now apply In_range in Hk).
  rewrite (bruteforce_loop_find payload _ Hne Hkeys) in Hkey.
  pose proof (find_seq_least (key_check payload) 256 0) as Hfind.
  fold (range 256) in Hfind.
  destruct (find (key_check payload) (range 256)) as [k|]; [|discriminate].
  injection Hkey as <-. destruct Hfind as [Hk [Hcheck _]].
  assert (Hk' : 0 <= k < 256) by lia.
  pose proof (int_16_format_02x k Hk') as Hread.
  unfold key_check in Hcheck.
  destruct (encDecBytes payload (format_02x k)) as [[|first rest]|e] eqn:E;
    try discriminate.
  apply Z.eqb_eq in Hcheck. subst first.
  exists k, rest. repeat split; try assumption; try lia.
  intros other. eexists. exact (encDecBytes_spec other _ k Hread).
Qed.

Lemma bruteforce_key_usable_witness :
  exists k rest,
    0 <= k < 256 /\ "2a"%string = format_02x k /\ int_16 "2a" = Ok k /\
    encDecBytes [0x77; 0xe0; 0x3d] "2a" = Ok (k :: rest) /\
    forall other : list Z, exists out, encDecBytes other "2a" = Ok out.
Proof.
  apply (bruteforce_key_usable "77 e0 3d" "2a" [0x77; 0xe0; 0x3d]);
    vm_compute; reflexivity.
Defined.

(** A device whose session key is [K] sends a first payload whose plain
    first byte is [K].  On the text of its ciphertext the search always
    finds a key, and the key found is at most [K]; it need not be [K]: for
    [K = 7] the ciphertext starts with [0x14] and the search returns the
    key 0. *)
Theorem bruteforce_key_session :
  (forall (K : Z) (plain cipher : list Z) (data : string),
      0 <= K < 256 ->
      Forall is_byte plain ->
      encDecBytes (K :: plain) (format_02x K) = Ok cipher ->
      mapM int_16 (split data) = Ok cipher ->
      exists k, bruteforce_key data = Ok (Some (format_02x k)) /\ 0 <= k <= K) /\
  encDecBytes [7; 0; 0] (format_02x 7) = Ok [0x14; 0xa2; 0x33] /\
  bruteforce_key "14 a2 33" = Ok (Some "00"%string).
Proof.
  split; [|split; vm_compute; reflexivity].
  intros K plain cipher data HK Hplain Hcipher Hdata.
  pose proof (int_16_format_02x K HK) as Hread.
  assert (Hbytes : Forall is_byte (K :: plain)) by (constructor; assumption).
  assert (Hback : encDecBytes cipher (format_02x K) = Ok (K :: plain)).
  { rewrite (encDecBytes_spec _ _ _ Hread) in Hcipher.
    assert (Ec : cipher
                 = transformPayload (K :: plain) 0 (Z.shiftr K 4) (Z.land K 15))
      by congruence.
    rewrite Ec, (encDecBytes_spec _ _ _ Hread).
    rewrite transformPayload_involutive by assumption. reflexivity. }
  assert (Hcheck : key_check cipher K = true).
  { unfold key_check. rewrite Hback. apply Z.eqb_refl. }
  assert (Hne : cipher <> []).
  { intros ->. rewrite (encDecBytes_spec _ _ _ Hread) in Hback.
    discriminate Hback. }
  assert (Hkeys : Forall (fun k => 0 <= k < 256) (range 256))
    by (apply Forall_forall; intros k Hk; now apply In_range in Hk).
  unfold bruteforce_key. rewrite Hdata. cbn [bind].
  rewrite (bruteforce_loop_find cipher _ Hne Hkeys).
  pose proof (find_seq_least (key_check cipher) 256 0) as Hfind.
  fold (range 256) in Hfind.
  destruct (find (key_check cipher) (range 256)) as [k|].
  - destruct Hfind as [Hk [_ Hleast]]. exists k. split; [reflexivity|].
    split; [lia|]. destruct (Z_le_gt_dec k K) as [Hle|Hgt]; [exact Hle|].
    rewrite (Hleast K) in Hcheck by lia. discriminate.
  - rewrite (Hfind K) in Hcheck by lia. discriminate.
Qed.

Lemma bruteforce_key_session_witness :
  exists k, bruteforce_key "f9 dd 83" = Ok (Some (format_02x k)) /\ 0 <= k <= 0x5a.
Proof.
  apply (proj1 bruteforce_key_session 0x5a [0x00; 0x3d] [0xf9; 0xdd; 0x83]).
  - lia.
  - repeat constructor; unfold is_byte; lia.
  - vm_compute; reflexivity.
  - vm_compute; reflexivity.
Defined.

End KeySearchMore.

(** ** Commands and maintenance counters *)

Section CommandFacts.

Import Commands Script.

Lemma str_slice_2 (s : string) (i : Z) :
  0 <= i -> str_slice s (Z.to_nat i) (Z.to_nat (i + 2)) = substring (Z.to_nat i) 2 s.
Proof.
  intros Hi. unfold str_slice. f_equal. lia.
Qed.

(** Three characters in front of a text shift what is read by three. *)
Lemma hexStrToInt_shift (a b c : ascii) (s : string) (stop : Z) :
  forall (fuel : nat) (i : Z),
    0 <= i ->
    mapM (fun i => int_16 (str_slice (String a (String b (String c s)))
                             (Z.to_nat i) (Z.to_nat (i + 2))))
         (range_from fuel (i + 3) (stop + 3) 3)
    = mapM (fun i => int_16 (str_slice s (Z.to_nat i) (Z.to_nat (i + 2))))
           (range_from fuel i stop 3).
Proof.
  induction fuel as [|fuel IH]; intros i Hi; [reflexivity|].
  cbn [range_from].
  replace (i + 3 <? stop + 3) with (i <? stop)
    by (destruct (Z.ltb_spec i stop), (Z.ltb_spec (i + 3) (stop + 3));
        lia || reflexivity).
  destruct (i <? stop); [|reflexivity].
  cbn [mapM]. rewrite !str_slice_2 by lia.
  replace (Z.to_nat (i + 3)) with (S (S (S (Z.to_nat i)))) by lia.
  cbn [substring]. rewrite <- str_slice_2 by lia.
  rewrite (IH (i + 3)) by lia. reflexivity.
Qed.

Lemma hexStrToInt_text (sep : ascii) (bytes : list Z) :
  Forall is_byte bytes ->
  forall fuel : nat,
    let text := join_sep (String sep EmptyString) (map format_02x bytes) in
    (String.length text <= fuel)%nat ->
    mapM (fun i => int_16 (str_slice text (Z.to_nat i) (Z.to_nat (i + 2))))
         (range_from fuel 0 (Z.of_nat (String.length text)) 3)
    = Ok bytes.
Proof.
  induction 1 as [|d rest Hd Hrest IH]; intros fuel text Hfuel.
  - destruct fuel; reflexivity.
  - subst text. cbn [map join_sep] in Hfuel |- *.
    pose proof (int_16_format_02x d Hd) as Hread.
    rewrite (format_02x_byte d Hd) in Hread, Hfuel |- *.
    destruct rest as [|d' rest'].
    + cbn [map] in Hfuel |- *. cbn [String.length] in Hfuel |- *.
      destruct fuel as [|[|fuel]]; [lia | lia |].
      cbn [range_from Z.ltb Z.compare Z.of_nat Pos.of_succ_nat Pos.succ
             Z.add Pos.add Pos.compare Pos.compare_cont mapM].
      rewrite str_slice_2 by lia. cbn [Z.to_nat substring].
      rewrite Hread. reflexivity.
    + set (tail := join_sep (String sep EmptyString) (map format_02x (d' :: rest')))
        in *.
      assert (Htail : map format_02x (d' :: rest') <> []) by discriminate.
      destruct (map format_02x (d' :: rest')) as [|x xs] eqn:Emap; [congruence|].
      rewrite <- Emap in *. fold tail in Hfuel |- *.
      cbn [append String.length] in Hfuel |- *.
      destruct fuel as [|fuel]; [lia|].
      cbn [range_from].
      replace (0 <? Z.of_nat (S (S (S (String.length tail))))) with true
        by (symmetry; apply Z.ltb_lt; lia).
      cbn [mapM]. rewrite str_slice_2 by lia. cbn [Z.to_nat substring].
      rewrite Hread. cbn [bind].
      replace (Z.of_nat (S (S (S (String.length tail)))))
        with (Z.of_nat (String.length tail) + 3) by lia.
      rewrite (hexStrToInt_shift _ _ _ tail _ fuel 0 (Z.le_refl 0)).
      rewrite (IH fuel) by (fold tail; lia). reflexivity.
Qed.

(** [hexStrToInt] reads back a list of bytes written with two hexadecimal
    digits a byte and one separating character between bytes, whatever that
    character is. *)
Theorem hexStrToInt_format :
  forall (sep : ascii) (bytes : list Z),
    Forall is_byte bytes ->
    hexStrToInt (join_sep (String sep EmptyString) (map format_02x bytes))
    = Ok bytes.
Proof.
  intros sep bytes Hbytes. unfold hexStrToInt, range3.
  rewrite Z.sub_0_r, Nat2Z.id.
  apply (hexStrToInt_text sep bytes Hbytes). lia.
Qed.

Lemma hexStrToInt_format_witness :
  hexStrToInt (join_sep " " (map format_02x [0x2a; 0x00; 0x01; 0xff; 0xff]))
  = Ok [0x2a; 0x00; 0x01; 0xff; 0xff].
Proof.
  apply (hexStrToInt_format " " [0x2a; 0x00; 0x01; 0xff; 0xff]).
  repeat constructor; unfold is_byte; lia.
Defined.

(** *** The blank-separated text of commands and payloads *)

Lemma isspace_hex_digit (n : Z) : 0 <= n < 16 -> isspace (hex_digit n) = false.
Proof.
  intros Hn.
  apply (forallb_range (fun n => negb (isspace (hex_digit n))) 16 eq_refl) in Hn.
  now apply negb_true_iff in Hn.
Qed.

Lemma byte_digits (d : Z) :
  is_byte d -> 0 <= d / 16 < 16 /\ 0 <= d mod 16 < 16.
Proof.
  unfold is_byte. intros Hd. split.
  - split; [apply Z.div_pos | apply Z.div_lt_upper_bound]; lia.
  - apply Z.mod_pos_bound. lia.
Qed.

Lemma split_format (bytes : list Z) :
  Forall is_byte bytes ->
  split (join_sep " " (map format_02x bytes)) = map format_02x bytes.
Proof.
  unfold split. induction 1 as [|d rest Hd Hrest IH]; [reflexivity|].
  cbn [map join_sep]. rewrite (format_02x_byte d Hd).
  destruct (byte_digits d Hd) as [Hhi Hlo].
  destruct rest as [|d' rest'].
  - cbn [map split_aux].
    rewrite (isspace_hex_digit _ Hhi), (isspace_hex_digit _ Hlo). reflexivity.
  - destruct (map format_02x (d' :: rest')) as [|x xs] eqn:Emap;
      [discriminate|]. rewrite <- Emap in *.
    cbn [append split_aux].
    rewrite (isspace_hex_digit _ Hhi), (isspace_hex_digit _ Hlo).
    change (isspace " ") with true. cbv iota. rewrite IH. reflexivity.
Qed.

Lemma mapM_int_16_format (bytes : list Z) :
  Forall is_byte bytes -> mapM int_16 (map format_02x bytes) = Ok bytes.
Proof.
  induction 1 as [|d rest Hd _ IH]; [reflexivity|].
  cbn [map mapM]. rewrite (int_16_format_02x d Hd). cbn [bind].
  rewrite IH. reflexivity.
Qed.

Lemma length_join_format (bytes : list Z) :
  Forall is_byte bytes ->
  String.length (join (map format_02x bytes)) = (2 * List.length bytes)%nat.
Proof.
  induction 1 as [|d rest Hd _ IH]; [reflexivity|].
  cbn [map join fold_right List.length]. fold (join (map format_02x rest)).
  rewrite (format_02x_byte d Hd). cbn [append String.length].
  rewrite IH. lia.
Qed.

(** For a command whose text reads as a list of numbers and a key text that
    reads as a number, [encode_command] returns exactly two hexadecimal
    digits for each number of the command, and the returned text, read as
    one hexadecimal number, is the big-endian value of the transformed
    bytes. *)
Theorem encode_command_digits :
  forall (command key : string) (bytes : list Z) (k : Z),
    mapM int_16 (split command) = Ok bytes ->
    int_16 key = Ok k ->
    exists (encoded : list Z) (text : string),
      BtEncoder.encDecBytes bytes key = Ok encoded /\
      encode_command command key = Ok text /\
      String.length text = (2 * List.length bytes)%nat /\
      (bytes <> [] -> int_16 text = Ok (big_endian encoded)).
Proof.
  intros command key bytes k Hcmd Hkey.
  pose proof (encDecBytes_spec bytes key k Hkey) as Henc.
  pose proof (transformPayload_bytes bytes 0 (Z.shiftr k 4) (Z.land k 15))
    as Hrange.
  set (encoded := transformPayload bytes 0 (Z.shiftr k 4) (Z.land k 15)) in *.
  exists encoded, (join (map format_02x encoded)).
  split; [exact Henc|]. split.
  - unfold encode_command. rewrite Hcmd. cbn [bind]. rewrite Henc. reflexivity.
  - split.
    + rewrite (length_join_format encoded Hrange). unfold encoded.
      now rewrite transformPayload_length.
    + intros Hne. apply int_16_join; [|exact Hrange].
      intros E. apply (f_equal (@List.length Z)) in E. unfold encoded in E.
      rewrite transformPayload_length in E. destruct bytes; [congruence|].
      discriminate E.
Qed.

Lemma encode_command_digits_witness :
  exists (encoded : list Z) (text : string),
    BtEncoder.encDecBytes [0x2a; 0x00; 0x01; 0xff; 0xff] "5a" = Ok encoded /\
    encode_command "2a 00 01 FF FF" "5a" = Ok text /\
    String.length text = 10%nat /\
    ([0x2a; 0x00; 0x01; 0xff; 0xff] <> [] -> int_16 text = Ok (big_endian encoded)).
Proof.
  apply (encode_command_digits "2a 00 01 FF FF" "5a"
           [0x2a; 0x00; 0x01; 0xff; 0xff] 0x5a); vm_compute; reflexivity.
Defined.

(** Encoding is undone by encoding again: when the digits [encode_command]
    returned for a command are written out byte by byte with blanks between,
    [encode_command] with the same key returns the digits of the command. *)
Theorem encode_command_round_trip :
  forall (bytes : list Z) (k : Z),
    Forall is_byte bytes ->
    0 <= k < 256 ->
    exists encoded : list Z,
      encode_command (join_sep " " (map format_02x bytes)) (format_02x k)
      = Ok (join (map format_02x encoded)) /\
      encode_command (join_sep " " (map format_02x encoded)) (format_02x k)
      = Ok (join (map format_02x bytes)).
Proof.
  intros bytes k Hbytes Hk.
  pose proof (int_16_format_02x k Hk) as Hkey.
  pose proof (transformPayload_bytes bytes 0 (Z.shiftr k 4) (Z.land k 15))
    as Hrange.
  set (encoded := transformPayload bytes 0 (Z.shiftr k 4) (Z.land k 15)) in *.
  exists encoded. unfold encode_command.
  rewrite !split_format, !mapM_int_16_format by assumption. cbn [bind].
  rewrite !(encDecBytes_spec _ _ _ Hkey). cbn [bind]. fold encoded.
  split; [reflexivity|]. unfold encoded.
  rewrite transformPayload_involutive by assumption. reflexivity.
Qed.

Lemma encode_command_round_trip_witness :
  exists encoded : list Z,
    encode_command (join_sep " " (map format_02x [0x2a; 0x00; 0x04; 0x01; 0x00]))
      (format_02x 0x5a)
    = Ok (join (map format_02x encoded)) /\
    encode_command (join_sep " " (map format_02x encoded)) (format_02x 0x5a)
    = Ok (join (map format_02x [0x2a; 0x00; 0x04; 0x01; 0x00])).
Proof.
  apply (encode_command_round_trip [0x2a; 0x00; 0x04; 0x01; 0x00] 0x5a).
  - repeat constructor; unfold is_byte; lia.
  - lia.
Defined.

(** *** Maintenance counters *)

Lemma skipn_nth_cons {A : Type} (l : list A) (n : nat) (d : A) :
  (n < List.length l)%nat -> skipn n l = nth n l d :: skipn (S n) l.
Proof.
  revert n. induction l as [|x l IH]; intros n Hn; [simpl in Hn; lia|].
  destruct n as [|n]; [reflexivity|].
  cbn [skipn nth]. apply IH. simpl in Hn. lia.
Qed.

Lemma log_maintenance_from_spec (decoded : list Z) (label : string)
    (maintenance_list : list (option string)) :
  forall (i : Z) (log : list maintenance_line),
    0 <= i ->
    log_maintenance_from i decoded maintenance_list label log
    = Ok (log ++ map (fun cv => (label, fst cv, snd cv))
                     (combine maintenance_list (skipn (Z.to_nat i) decoded))).
Proof.
  induction maintenance_list as [|count rest IH]; intros i log Hi.
  - cbn. now rewrite app_nil_r.
  - cbn [log_maintenance_from].
    destruct (Z.ltb_spec i (Z.of_nat (List.length decoded))) as [Hlt|Hge].
    + rewrite (getitem_nth decoded i 0) by lia. cbn [bind].
      rewrite (IH (i + 1)) by lia.
      rewrite (skipn_nth_cons decoded (Z.to_nat i) 0) by lia.
      replace (Z.to_nat (i + 1)) with (S (Z.to_nat i)) by lia.
      cbn [combine map fst snd]. now rewrite <- app_assoc.
    + rewrite (IH (i + 1)) by lia.
      rewrite !(skipn_all2 decoded) by lia.
      now rewrite !combine_nil.
Qed.

(** [log_maintenance] never raises: it logs counter [i] of the machine file
    with value [i] of the decoded list for as long as both exist, and
    ignores what is left of the longer of the two. *)
Theorem log_maintenance_pairs :
  forall (decoded : list Z) (maintenance_list : list (option string))
         (label : string),
    log_maintenance decoded maintenance_list label
    = Ok (map (fun cv => (label, fst cv, snd cv))
              (combine maintenance_list decoded)) /\
    (forall lines,
        log_maintenance decoded maintenance_list label = Ok lines ->
        List.length lines
        = Nat.min (List.length maintenance_list) (List.length decoded)).
Proof.
  intros decoded maintenance_list label.
  assert (E : log_maintenance decoded maintenance_list label
              = Ok (map (fun cv => (label, fst cv, snd cv))
                        (combine maintenance_list decoded))).
  { unfold log_maintenance.
    now rewrite (log_maintenance_from_spec decoded label maintenance_list 0 []
                   (Z.le_refl 0)). }
  split; [exact E|]. intros lines Hlines. rewrite E in Hlines.
  injection Hlines as <-. now rewrite length_map, length_combine.
Qed.

End CommandFacts.


(** ** The alert table *)

Section AlertTable.

Import Script.

Lemma find_app {A : Type} (f : A -> bool) (l1 l2 : list A) :
  find f (l1 ++ l2)
  = match find f l1 with
    | Some x => Some x
    | None => find f l2
    end.
Proof.
  induction l1 as [|x l1 IH]; [reflexivity|].
  cbn [app find]. destruct (f x); [reflexivity | exact IH].
Qed.

Lemma length_replace_nth {A : Type} (l : list A) :
  forall (n : nat) (x : A), List.length (replace_nth l n x) = List.length l.
Proof.
  induction l as [|y l IH]; intros [|n] x; cbn; try reflexivity.
  now rewrite IH.
Qed.

Lemma nth_replace_nth {A : Type} (l : list A) :
  forall (n i : nat) (x d : A),
    (n < List.length l)%nat ->
    nth i (replace_nth l n x) d = if Nat.eqb i n then x else nth i l d.
Proof.
  induction l as [|y l IH]; intros n i x d Hn; [simpl in Hn; lia|].
  destruct n as [|n], i as [|i]; cbn [replace_nth nth Nat.eqb];
    try reflexivity.
  apply IH. simpl in Hn. lia.
Qed.

Lemma fold_left_max_bounds (l : list Z) :
  forall x : Z,
    let m := fold_left Z.max l x in
    x <= m /\ (forall y, In y l -> y <= m) /\ (m = x \/ In m l).
Proof.
  induction l as [|y l IH]; intros x; cbn [fold_left].
  - repeat split; [lia | intros ? [] | now left].
  - destruct (IH (Z.max x y)) as [H1 [H2 H3]]. cbv zeta.
    split; [lia|]. split.
    + intros z [<-|Hz]; [lia | now apply H2].
    + destruct H3 as [H3|H3]; [|right; now right].
      rewrite H3. destruct (Z.max_spec x y) as [[_ ->]|[_ ->]];
        [right; now left | now left].
Qed.

(** The assignments of [extract_alerts], on a table that has room for every
    bit: each entry ends as the name of the last alert given for its index,
    or as it was. *)
Lemma extract_alerts_fill (found : list alert) :
  forall table : list (option string),
    (forall a, In a found -> 0 <= Bit a < Z.of_nat (List.length table)) ->
    exists alerts,
      foldM (fun alerts a => setitem alerts (Bit a) (AlertName a)) found table
      = Ok alerts /\
      List.length alerts = List.length table /\
      forall i : nat,
        nth i alerts None
        = match find (fun a => Bit a =? Z.of_nat i) (rev found) with
          | Some a => AlertName a
          | None => nth i table None
          end.
Proof.
  induction found as [|a rest IH]; intros table Hbits.
  - exists table. repeat split.
  - cbn [foldM]. destruct (Hbits a (or_introl eq_refl)) as [Hlo Hhi].
    unfold setitem at 1.
    destruct (Z.ltb_spec (Bit a) 0) as [?|_]; [lia|].
    destruct (Z.ltb_spec (Bit a) 0) as [?|_]; [lia|].
    destruct (Z.leb_spec (Z.of_nat (List.length table)) (Bit a)) as [?|_];
      [lia|]. cbn [orb bind].
    destruct (IH (replace_nth table (Z.to_nat (Bit a)) (AlertName a)))
      as [alerts [Hfold [Hlen Hnth]]].
    { intros b Hb. rewrite length_replace_nth. apply Hbits. now right. }
    exists alerts. split; [exact Hfold|]. split.
    + now rewrite Hlen, length_replace_nth.
    + intros i. rewrite Hnth. cbn [rev]. rewrite find_app.
      destruct (find (fun a0 => Bit a0 =? Z.of_nat i) (rev rest));
        [reflexivity|].
      rewrite nth_replace_nth by lia. cbn [find].
      destruct (Z.eqb_spec (Bit a) (Z.of_nat i)) as [E|E].
      * replace (Nat.eqb i (Z.to_nat (Bit a))) with true
          by (symmetry; apply Nat.eqb_eq; lia). reflexivity.
      * replace (Nat.eqb i (Z.to_nat (Bit a))) with false
          by (symmetry; apply Nat.eqb_neq; lia). reflexivity.
Qed.

Lemma extract_alerts_spec (found : list alert) :
  found <> [] ->
  (forall a, In a found -> 0 <= Bit a) ->
  exists (alerts : list (option string)) (m : Z),
    extract_alerts found = Ok alerts /\
    Z.of_nat (List.length alerts) = m + 1 /\
    (forall a, In a found -> Bit a <= m) /\
    (exists a, In a found /\ Bit a = m) /\
    forall i : nat,
      nth i alerts None
      = match find (fun a => Bit a =? Z.of_nat i) (rev found) with
        | Some a => AlertName a
        | None => None
        end.
Proof.
  intros Hne Hpos. destruct found as [|a0 rest]; [congruence|].
  unfold extract_alerts. cbn [map max_of bind].
  destruct (fold_left_max_bounds (map Bit rest) (Bit a0)) as [H1 [H2 H3]].
  set (m := fold_left Z.max (map Bit rest) (Bit a0)) in *.
  assert (Hle : forall a, In a (a0 :: rest) -> Bit a <= m).
  { intros a [<-|Ha]; [exact H1 | apply H2, in_map, Ha]. }
  assert (Hm0 : 0 <= m) by (pose proof (Hpos a0 (or_introl eq_refl)); lia).
  destruct (extract_alerts_fill (a0 :: rest) (repeat None (Z.to_nat (m + 1))))
    as [alerts [Hfold [Hlen Hnth]]].
  { intros a Ha. rewrite repeat_length.
    pose proof (Hpos a Ha). pose proof (Hle a Ha). lia. }
  exists alerts, m. split; [exact Hfold|]. split.
  { rewrite Hlen, repeat_length. lia. }
  split; [exact Hle|]. split.
  { destruct H3 as [H3|H3].
    - exists a0. split; [now left | now symmetry].
    - apply in_map_iff in H3. destruct H3 as [a [Ea Ha]].
      exists a. split; [now right | exact Ea]. }
  intros i. rewrite Hnth.
  destruct (find (fun a => Bit a =? Z.of_nat i) (rev (a0 :: rest)));
    [reflexivity|].
  apply nth_repeat.
Qed.

(** When the machine file has at least one alert and no negative bit,
    [extract_alerts] returns a table one longer than the largest bit; entry
    [i] is the name of the last alert given for bit [i], and [None] when
    there is none.  Without any alert it raises [ValueError]. *)
Theorem extract_alerts_table :
  forall found : list alert,
    found <> [] ->
    (forall a, In a found -> 0 <= Bit a) ->
    extract_alerts [] = Raise (ValueError "max() arg is an empty sequence") /\
    exists (alerts : list (option string)) (m : Z),
      extract_alerts found = Ok alerts /\
      Z.of_nat (List.length alerts) = m + 1 /\
      (forall a, In a found -> Bit a <= m) /\
      (exists a, In a found /\ Bit a = m) /\
      forall i : nat,
        nth i alerts None
        = match find (fun a => Bit a =? Z.of_nat i) (rev found) with
          | Some a => AlertName a
          | None => None
          end.
Proof.
  intros found Hne Hpos. split; [reflexivity|].
  now apply extract_alerts_spec.
Qed.

Lemma extract_alerts_table_witness :
  exists (alerts : list (option string)) (m : Z),
    extract_alerts [ {| Bit := 3; AlertName := Some "no beans"%string |};
                     {| Bit := 1; AlertName := Some "fill water"%string |} ]
    = Ok alerts /\
    Z.of_nat (List.length alerts) = m + 1.
Proof.
  destruct (extract_alerts_table
              [ {| Bit := 3; AlertName := Some "no beans"%string |};
                {| Bit := 1; AlertName := Some "fill water"%string |} ])
    as [_ [alerts [m [H1 [H2 _]]]]].
  - discriminate.
  - intros a [<-|[<-|[]]]; cbn; lia.
  - exists alerts, m. split; assumption.
Defined.

(** With the table [extract_alerts] built, the alert scan ends normally
    whenever no active bit lies above the largest bit of the machine file,
    and it logs each active bit with the name the machine file gives it
    last, or [None]. *)
Theorem alert_scan_with_machine_file :
  forall (found : list alert) (alerts : list (option string)) (decoded : list Z),
    (forall a, In a found -> 0 <= Bit a) ->
    extract_alerts found = Ok alerts ->
    (forall i, 0 <= i < (Z.of_nat (List.length decoded) - 1) * 8 ->
               alert_bit decoded i = true ->
               exists a, In a found /\ i <= Bit a) ->
    alert_scan decoded alerts
    = (map (fun i =>
              (i, match find (fun a => Bit a =? i) (rev found) with
                  | Some a => AlertName a
                  | None => None
                  end))
           (filter (alert_bit decoded)
              (range (Z.to_nat ((Z.of_nat (List.length decoded) - 1) * 8)))),
       None).
Proof.
  intros found alerts decoded Hpos Hextract Hactive.
  assert (Hne : found <> []).
  { intros ->. discriminate Hextract. }
  destruct (extract_alerts_spec found Hne Hpos)
    as [alerts' [m [E [Hlen [Hle [_ Hnth]]]]]].
  rewrite E in Hextract. injection Hextract as ->.
  unfold alert_scan. rewrite alert_loop_covered.
  - cbn [app]. f_equal. apply map_ext_in. intros i Hi.
    apply filter_In in Hi. destruct Hi as [Hi _]. apply In_range in Hi.
    rewrite Hnth. rewrite Z2Nat.id by lia. reflexivity.
  - intros i Hi. apply In_range in Hi. lia.
  - intros i Hi Hbit. apply In_range in Hi.
    destruct (Hactive i ltac:(lia) Hbit) as [a [Ha Hia]].
    pose proof (Hle a Ha). lia.
Qed.

Lemma alert_scan_with_machine_file_witness :
  alert_scan [0x00; 0x50]
    [None; Some "fill water"%string; None; Some "no beans"%string]
  = (map (fun i =>
            (i, match
                  find (fun a => Bit a =? i)
                    (rev [ {| Bit := 3; AlertName := Some "no beans"%string |};
                           {| Bit := 1; AlertName := Some "fill water"%string |} ])
                with
                | Some a => AlertName a
                | None => None
                end))
         (filter (alert_bit [0x00; 0x50]) (range 8)), None).
Proof.
  apply (alert_scan_with_machine_file
           [ {| Bit := 3; AlertName := Some "no beans"%string |};
             {| Bit := 1; AlertName := Some "fill water"%string |} ]
           [None; Some "fill water"%string; None; Some "no beans"%string]
           [0x00; 0x50]).
  - intros a [<-|[<-|[]]]; cbn; lia.
  - reflexivity.
  - intros i Hi Hbit. cbn [List.length] in Hi.
    assert (Hall : forallb (fun i => negb (alert_bit [0x00; 0x50] i) || (i <=? 3))
                     (range 8) = true) by reflexivity.
    pose proof (forallb_range _ 8 Hall i ltac:(lia)) as H. cbv beta in H.
    rewrite Hbit in H. cbn [negb orb] in H. apply Z.leb_le in H.
    exists {| Bit := 3; AlertName := Some "no beans"%string |}.
    split; [now left | exact H].
Defined.

End AlertTable.

(** ** More on the statistics *)

Section StatisticsMore.

Import Script.

Lemma big_endian_from_bound (g : list Z) :
  Forall is_byte g ->
  forall acc : Z,
    0 <= acc ->
    0 <= fold_left (fun a d => 256 * a + d) g acc
      < (acc + 1) * 256 ^ Z.of_nat (List.length g).
Proof.
  induction 1 as [|d g Hd _ IH]; intros acc Hacc.
  - cbn. lia.
  - cbn [fold_left List.length]. unfold is_byte in Hd.
    specialize (IH (256 * acc + d) ltac:(lia)).
    rewrite Nat2Z.inj_succ, Z.pow_succ_r by lia.
    assert (0 < 256 ^ Z.of_nat (List.length g)) by (apply Z.pow_pos_nonneg; lia).
    nia.
Qed.

Lemma big_endian_bound (g : list Z) (w : nat) :
  Forall is_byte g -> (List.length g <= w)%nat ->
  0 <= big_endian g < 256 ^ Z.of_nat w.
Proof.
  intros Hg Hlen. unfold big_endian.
  pose proof (big_endian_from_bound g Hg 0 (Z.le_refl 0)) as H.
  assert (256 ^ Z.of_nat (List.length g) <= 256 ^ Z.of_nat w)
    by (apply Z.pow_le_mono_r; lia).
  lia.
Qed.

Lemma chunks_fuel_groups {A : Type} (P : A -> Prop) (w : nat) :
  (0 < w)%nat ->
  forall (fuel : nat) (l : list A),
    (List.length l <= fuel)%nat ->
    Forall P l ->
    let n := List.length (chunks_fuel fuel w l) in
    (List.length l <= w * n < List.length l + w)%nat /\
    Forall (fun g => Forall P g /\ (List.length g <= w)%nat)
           (chunks_fuel fuel w l).
Proof.
  intros Hw. induction fuel as [|fuel IH]; intros l Hl HP.
  - destruct l; [|simpl in Hl; lia]. cbn. split; [lia | constructor].
  - destruct l as [|x l]; [cbn; split; [lia | constructor]|].
    cbn [chunks_fuel]. set (rest := skipn w (x :: l)).
    assert (Hrest : List.length rest = (List.length (x :: l) - w)%nat)
      by apply length_skipn.
    destruct (Forall_firstn_skipn P w (x :: l) HP) as [Hfirst Hskip].
    destruct (IH rest) as [Hn Hgroups].
    { rewrite Hrest. cbn [List.length] in Hl |- *. lia. }
    { exact Hskip. }
    cbv zeta in Hn |- *. cbn [List.length] in Hn, Hrest, Hl |- *. split.
    + rewrite Hrest in Hn. rewrite Nat.mul_succ_r.
      set (n' := List.length (chunks_fuel fuel w rest)) in *.
      destruct (Nat.le_gt_cases (S (List.length l)) w) as [Hle|Hgt].
      * assert (n' = 0)%nat by (destruct n'; [reflexivity | nia]). subst n'.
        lia.
      * lia.
    + constructor; [|exact Hgroups]. split; [exact Hfirst|].
      rewrite length_firstn. lia.
Qed.

(** On bytes the reassembly with a positive field width [w] never raises;
    it returns one value for each started group of [w] bytes, so [n] values
    with [len <= w * n < len + w], and every value lies in [0 .. 256^w - 1]. *)
Theorem reassemble_count_and_range :
  forall (decoded : list Z) (w : nat),
    (0 < w)%nat ->
    Forall is_byte decoded ->
    exists values : list Z,
      reassemble decoded (Z.of_nat w) = Ok values /\
      (List.length decoded <= w * List.length values < List.length decoded + w)%nat /\
      Forall (fun v => 0 <= v < 256 ^ Z.of_nat w) values.
Proof.
  intros decoded w Hw Hbytes.
  exists (map big_endian (chunks w decoded)). split.
  - unfold reassemble, range3, chunks. rewrite Z.sub_0_r, Nat2Z.id.
    now rewrite (reassemble_from decoded w Hw Hbytes _ 0 (Z.le_refl 0)).
  - destruct (chunks_fuel_groups is_byte w Hw (List.length decoded) decoded
                (Nat.le_refl _) Hbytes) as [Hn Hgroups].
    fold (chunks w decoded) in Hn, Hgroups. cbv zeta in Hn.
    rewrite length_map. split; [exact Hn|].
    apply Forall_map. eapply Forall_impl; [|exact Hgroups].
    intros g [Hg Hlen]. now apply big_endian_bound.
Qed.

Lemma reassemble_count_and_range_witness :
  exists values : list Z,
    reassemble [0x00; 0x01; 0x02; 0xff; 0xff; 0xff; 0x07] (Z.of_nat 3) = Ok values /\
    (7 <= 3 * List.length values < 7 + 3)%nat /\
    Forall (fun v => 0 <= v < 256 ^ Z.of_nat 3) values.
Proof.
  apply (reassemble_count_and_range [0x00; 0x01; 0x02; 0xff; 0xff; 0xff; 0x07] 3).
  - lia.
  - repeat constructor; unfold is_byte; lia.
Defined.

Lemma log_statistics_from_sorted (products : list product) (decoded : list Z) :
  forall i0 : Z,
    (List.length (log_statistics_from i0 decoded products)
     <= List.length decoded)%nat
    /\ StronglySorted Z.lt
         (map (fun line : product_line => fst (fst line))
              (log_statistics_from i0 decoded products))
    /\ Forall (fun line : product_line => i0 <= fst (fst line))
         (log_statistics_from i0 decoded products).
Proof.
  induction decoded as [|byte rest IH]; intros i0.
  - cbn. repeat split; constructor.
  - cbn [log_statistics_from List.length].
    destruct (IH (i0 + 1)) as [Hlen [Hsorted Hlow]].
    assert (Hlow' : Forall (fun line : product_line => i0 <= fst (fst line))
                      (log_statistics_from (i0 + 1) rest products)).
    { eapply Forall_impl; [|exact Hlow]. cbv beta. intros; lia. }
    destruct (find_product products i0) as [p|].
    + cbn [List.length map fst]. split; [lia|]. split.
      * constructor; [exact Hsorted|]. apply Forall_map.
        eapply Forall_impl; [|exact Hlow]. cbv beta. intros; lia.
      * constructor; [cbn; lia | exact Hlow'].
    + split; [lia|]. split; assumption.
Qed.

(** [log_statistics] logs at most one line for each value, in ascending
    order of product code, only for the codes of products of the machine
    file, and never the value 65535. *)
Theorem log_statistics_lines :
  forall (decoded : list Z) (products : list product),
    let lines := log_statistics decoded products in
    (List.length lines <= List.length decoded)%nat /\
    StronglySorted Z.lt (map (fun line : product_line => fst (fst line)) lines) /\
    Forall (fun line : product_line =>
              snd line <> 65535 /\
              0 <= fst (fst line) < Z.of_nat (List.length decoded) /\
              exists p, In p products /\ Code p = fst (fst line)
                        /\ Name p = snd (fst line))
           lines.
Proof.
  intros decoded products lines. subst lines. unfold log_statistics.
  destruct (log_statistics_from_sorted products decoded 0) as [Hlen [Hsorted _]].
  split; [lia|]. split; [exact Hsorted|].
  apply Forall_forall. intros line Hline.
  apply (log_statistics_from_lines products decoded 0 line) in Hline.
  destruct Hline as [j [v [p [Hj [Hp ->]]]]]. cbn [fst snd].
  rewrite Z.add_0_l in *.
  split; [destruct (Z.eqb_spec v 65535); lia|]. split.
  - assert (j < List.length decoded)%nat by (apply nth_error_Some; congruence).
    lia.
  - unfold find_product in Hp. apply find_some in Hp. destruct Hp as [Hin Hcode].
    apply Z.eqb_eq in Hcode. exists p. auto.
Qed.

End StatisticsMore.

(** ** More on the character codec *)

Section CharacterCodecMore.

Import JuraEncoder.

Lemma tobytes_wire_byte (x y : bool) :
  In (tobytes (wire_byte x y)) [[0x5B]; [0x5F]; [0x7B]; [0x7F]].
Proof. destruct x, y; cbn; auto. Qed.

(** Whatever the character, each of the four bytes [tojura] returns is one
    of [5B], [5F], [7B] and [7F]. *)
Theorem tojura_alphabet :
  forall (c : Z) (bs : list Z),
    encode [c] = Ok bs ->
    exists ws,
      tojura [c] = Ok ws /\
      List.length ws = 4%nat /\
      Forall (fun w => In (tobytes w) [[0x5B]; [0x5F]; [0x7B]; [0x7F]]) ws.
Proof.
  intros c bs Henc. destruct (encode_last c bs Henc) as [Hlast _].
  eexists. split; [exact (tojura_bits c bs _ _ _ _ _ _ _ _ Henc Hlast)|].
  split; [reflexivity|].
  repeat (apply Forall_cons; [apply tobytes_wire_byte|]). apply Forall_nil.
Qed.

Lemma tojura_alphabet_witness :
  exists ws,
    tojura [0x20AC] = Ok ws /\
    List.length ws = 4%nat /\
    Forall (fun w => In (tobytes w) [[0x5B]; [0x5F]; [0x7B]; [0x7F]]) ws.
Proof. exact (tojura_alphabet 0x20AC [0xE2; 0x82; 0xAC] eq_refl). Defined.

Lemma getitem_at {A : Type} (l : list A) (i : Z) (x : A) :
  0 <= i -> nth_error l (Z.to_nat i) = Some x -> getitem l i = Ok x.
Proof.
  intros Hi E. rewrite <- (Z2Nat.id i Hi). now apply getitem_nth_error.
Qed.

Lemma setitem_at {A : Type} (l : list A) (i : Z) (x : A) :
  0 <= i < Z.of_nat (List.length l) ->
  setitem l i x = Ok (replace_nth l (Z.to_nat i) x).
Proof.
  intros Hi. unfold setitem.
  destruct (Z.ltb_spec i 0) as [?|_]; [lia|].
  destruct (Z.ltb_spec i 0) as [?|_]; [lia|].
  destruct (Z.leb_spec (Z.of_nat (List.length l)) i) as [?|_]; [lia|].
  reflexivity.
Qed.

(** One pass of [fromjura]'s loop on a row that has its bits 2 and 5. *)
Lemma fromjura_step_ok (bytes : list bitarray) (out row : bitarray)
    (i : Z) (x y : bool) :
  0 <= i ->
  i * 2 + 1 < Z.of_nat (List.length out) ->
  nth_error bytes (Z.to_nat i) = Some row ->
  nth_error row 2 = Some x ->
  nth_error row 5 = Some y ->
  fromjura_step bytes out i
  = Ok (replace_nth (replace_nth out (Z.to_nat (i * 2)) x)
          (Z.to_nat (i * 2 + 1)) y).
Proof.
  intros Hi Hout Hrow Hx Hy. unfold fromjura_step.
  rewrite (getitem_at bytes i row Hi Hrow). cbn [bind].
  rewrite (getitem_at row 2 x) by (lia || exact Hx). cbn [bind].
  rewrite setitem_at by lia. cbn [bind].
  rewrite (getitem_at row 5 y) by (lia || exact Hy). cbn [bind].
  rewrite setitem_at by (rewrite length_replace_nth; lia).
  reflexivity.
Qed.

Ltac step_out :=
  cbn [bind];
  repeat match goal with
         | |- context [Z.to_nat ?z] =>
             let n := eval vm_compute in (Z.to_nat z) in
             change (Z.to_nat z) with n
         end;
  cbn [repeat replace_nth].

Lemma bits_value_top (b0 b1 b2 b3 b4 b5 b6 b7 : bool) :
  (bits_value [b0; b1; b2; b3; b4; b5; b6; b7] <? 128) = negb b0.
Proof. destruct b0, b1, b2, b3, b4, b5, b6, b7; reflexivity. Qed.

(** [fromjura] looks at bits 2 and 5 of each of the four bytes only: the
    byte it decodes has, from its most significant bit down, bits 2 and 5 of
    byte 3, then of byte 2, byte 1 and byte 0.  It returns that byte as a
    character when bit 2 of byte 3 is 0, and raises [UnicodeDecodeError]
    when it is 1; the six template bits are never checked. *)
Theorem fromjura_payload_bits :
  forall (r0 r1 r2 r3 : bitarray) (x0 y0 x1 y1 x2 y2 x3 y3 : bool),
    nth_error r0 2 = Some x0 -> nth_error r0 5 = Some y0 ->
    nth_error r1 2 = Some x1 -> nth_error r1 5 = Some y1 ->
    nth_error r2 2 = Some x2 -> nth_error r2 5 = Some y2 ->
    nth_error r3 2 = Some x3 -> nth_error r3 5 = Some y3 ->
    fromjura [r0; r1; r2; r3]
    = if x3 then Raise UnicodeDecodeError
      else Ok [bits_value [x3; y3; x2; y2; x1; y1; x0; y0]].
Proof.
  intros r0 r1 r2 r3 x0 y0 x1 y1 x2 y2 x3 y3 Hx0 Hy0 Hx1 Hy1 Hx2 Hy2 Hx3 Hy3.
  unfold fromjura. cbn [List.length Nat.eqb negb].
  change (range 4) with [0; 1; 2; 3]. cbn [foldM].
  rewrite (fromjura_step_ok _ _ r0 0 x0 y0)
    by (cbn; first [lia | assumption | reflexivity]). step_out.
  rewrite (fromjura_step_ok _ _ r1 1 x1 y1)
    by (cbn; first [lia | assumption | reflexivity]). step_out.
  rewrite (fromjura_step_ok _ _ r2 2 x2 y2)
    by (cbn; first [lia | assumption | reflexivity]). step_out.
  rewrite (fromjura_step_ok _ _ r3 3 x3 y3)
    by (cbn; first [lia | assumption | reflexivity]). step_out.
  cbn [skipn firstn app slice Nat.sub tobytes decode].
  rewrite bits_value_top. destruct x3; reflexivity.
Qed.

Lemma fromjura_payload_bits_witness :
  fromjura [[true; true; false; false; false; true];
            [false; false; false; false; false; false; false];
            base_layout; base_layout]
  = if false then Raise UnicodeDecodeError
    else Ok [bits_value [false; false; false; false;
                         false; false; false; true]].
Proof.
  apply (fromjura_payload_bits
           [true; true; false; false; false; true]
           [false; false; false; false; false; false; false]
           base_layout base_layout); reflexivity.
Defined.

Lemma fromjura_step_cases (bytes : list bitarray) (out row : bitarray) (i : Z) :
  0 <= i ->
  i * 2 + 1 < Z.of_nat (List.length out) ->
  nth_error bytes (Z.to_nat i) = Some row ->
  if (List.length row <? 6)%nat
  then fromjura_step bytes out i = Raise IndexError
  else exists out',
      fromjura_step bytes out i = Ok out' /\ List.length out' = List.length out.
Proof.
  intros Hi Hout Hrow. unfold fromjura_step.
  rewrite (getitem_at bytes i row Hi Hrow). cbn [bind].
  destruct (Nat.ltb_spec (List.length row) 6) as [Hshort|Hlong].
  - destruct (Nat.le_gt_cases (List.length row) 2) as [H2|H2].
    + rewrite getitem_out_of_range by lia. reflexivity.
    + rewrite (getitem_nth row 2 false) by lia. cbn [bind].
      rewrite setitem_at by lia. cbn [bind].
      rewrite getitem_out_of_range by lia. reflexivity.
  - rewrite (getitem_nth row 2 false) by lia. cbn [bind].
    rewrite setitem_at by lia. cbn [bind].
    rewrite (getitem_nth row 5 false) by lia. cbn [bind].
    rewrite setitem_at by (rewrite length_replace_nth; lia).
    eexists. split; [reflexivity|]. now rewrite !length_replace_nth.
Qed.

Lemma fromjura_loop_short (bytes : list bitarray) :
  forall (indices : list Z) (out : bitarray),
    (forall i, In i indices ->
               0 <= i < Z.of_nat (List.length bytes) /\
               i * 2 + 1 < Z.of_nat (List.length out)) ->
    (exists i row, In i indices /\ nth_error bytes (Z.to_nat i) = Some row /\
                   (List.length row < 6)%nat) ->
    foldM (fromjura_step bytes) indices out = Raise IndexError.
Proof.
  induction indices as [|i rest IH]; intros out Hidx [j [row [Hj [Hrow Hshort]]]].
  - destruct Hj.
  - cbn [foldM]. destruct (Hidx i (or_introl eq_refl)) as [Hi Hout].
    destruct (nth_error bytes (Z.to_nat i)) as [row_i|] eqn:Ei;
      [|apply nth_error_None in Ei; lia].
    pose proof (fromjura_step_cases bytes out row_i i ltac:(lia) Hout Ei) as Hstep.
    destruct (Nat.ltb_spec (List.length row_i) 6) as [Hs|Hl].
    + now rewrite Hstep.
    + destruct Hstep as [out' [Hstep Hlen]]. rewrite Hstep. cbn [bind].
      apply IH.
      * intros k Hk. rewrite Hlen. apply Hidx. now right.
      * destruct Hj as [->|Hj]; [|eauto].
        rewrite Ei in Hrow. injection Hrow as ->. lia.
Qed.

(** Four bytes of which one has fewer than six bits make [fromjura] raise
    [IndexError]: the length check counts the bytes, not their bits. *)
Theorem fromjura_short_byte :
  forall (bytes : list bitarray) (row : bitarray),
    List.length bytes = 4%nat ->
    In row bytes ->
    (List.length row < 6)%nat ->
    fromjura bytes = Raise IndexError.
Proof.
  intros bytes row Hlen Hin Hshort. unfold fromjura.
  rewrite Hlen. cbn [Nat.eqb negb].
  rewrite fromjura_loop_short; [reflexivity | |].
  - intros i Hi. apply In_range in Hi. rewrite Hlen, repeat_length. lia.
  - apply In_nth_error in Hin. destruct Hin as [n Hn].
    assert (n < List.length bytes)%nat by (apply nth_error_Some; congruence).
    exists (Z.of_nat n), row. rewrite Nat2Z.id.
    split; [apply In_range; lia | auto].
Qed.

Lemma fromjura_short_byte_witness :
  fromjura [base_layout; base_layout; [false; true; false; true; true]; base_layout]
  = Raise IndexError.
Proof.
  apply (fromjura_short_byte _ [false; true; false; true; true]).
  - reflexivity.
  - right. right. now left.
  - cbn. lia.
Defined.

End CharacterCodecMore.


(** ** The character codec on text *)

Section CharacterCodecHex.

Import JuraEncoder JuraHex Commands.

Lemma tojura_hex_bits (c : Z) (bs : list Z) (b0 b1 b2 b3 b4 b5 b6 b7 : bool) :
  encode [c] = Ok bs ->
  last_n (frombytes [] bs) 8 = [b0; b1; b2; b3; b4; b5; b6; b7] ->
  tojura_hex [c]
  = Ok (join_sep " "
          (map (fun w => hexlify (tobytes w))
               [wire_byte b6 b7; wire_byte b4 b5;
                wire_byte b2 b3; wire_byte b0 b1])).
Proof.
  intros Henc Hlast. unfold tojura_hex. cbn [List.length Nat.eqb negb].
  rewrite Henc. cbn [bind]. rewrite Hlast.
  destruct b0, b1, b2, b3, b4, b5, b6, b7; vm_compute; reflexivity.
Qed.

(** With [hex] set, [tojura] returns the text of the four bytes it returns
    without: two lowercase hexadecimal digits a byte and one blank between
    bytes, eleven characters in all. *)
Theorem tojura_hex_agrees :
  forall (c : Z) (bs : list Z),
    encode [c] = Ok bs ->
    exists ws,
      tojura [c] = Ok ws /\
      tojura_hex [c]
      = Ok (join_sep " " (map (fun w => hexlify (tobytes w)) ws)) /\
      String.length (join_sep " " (map (fun w => hexlify (tobytes w)) ws))
      = 11%nat.
Proof.
  intros c bs Henc. destruct (encode_last c bs Henc) as [Hlast _].
  unfold byte_bits in Hlast. cbn [map] in Hlast.
  eexists. split; [exact (tojura_bits c bs _ _ _ _ _ _ _ _ Henc Hlast)|].
  split; [exact (tojura_hex_bits c bs _ _ _ _ _ _ _ _ Henc Hlast)|].
  generalize (Z.testbit (last bs 0) 7) (Z.testbit (last bs 0) 6)
             (Z.testbit (last bs 0) 5) (Z.testbit (last bs 0) 4)
             (Z.testbit (last bs 0) 3) (Z.testbit (last bs 0) 2)
             (Z.testbit (last bs 0) 1) (Z.testbit (last bs 0) 0).
  intros b0 b1 b2 b3 b4 b5 b6 b7.
  destruct b0, b1, b2, b3, b4, b5, b6, b7; reflexivity.
Qed.

Lemma tojura_hex_agrees_witness :
  exists ws,
    tojura [65] = Ok ws /\
    tojura_hex [65]
    = Ok (join_sep " " (map (fun w => hexlify (tobytes w)) ws)) /\
    String.length (join_sep " " (map (fun w => hexlify (tobytes w)) ws))
    = 11%nat.
Proof. exact (tojura_hex_agrees 65 [65] eq_refl). Defined.

(** On text too, decoding what was encoded gives the character back, for
    every character below 128. *)
Theorem fromjura_hex_tojura_hex :
  forall c : Z,
    0 <= c < 128 ->
    exists text, tojura_hex [c] = Ok text /\ fromjura_hex text = HexOk [c].
Proof.
  intros c Hc.
  assert (Hall : forallb (fun c =>
                   match tojura_hex [c] with
                   | Ok text =>
                       match fromjura_hex text with
                       | HexOk [d] => d =? c
                       | _ => false
                       end
                   | Raise _ => false
                   end) (range 128) = true) by (vm_compute; reflexivity).
  pose proof (forallb_range _ 128 Hall c Hc) as H. cbv beta in H. clear Hall.
  destruct (tojura_hex [c]) as [text|e]; [|discriminate H].
  exists text. split; [reflexivity|].
  destruct (fromjura_hex text) as [[|d [|d' rest]]|e|msg]; try discriminate H.
  apply Z.eqb_eq in H. now subst.
Qed.

Lemma fromjura_hex_tojura_hex_witness :
  exists text, tojura_hex [74] = Ok text /\ fromjura_hex text = HexOk [74].
Proof. apply (fromjura_hex_tojura_hex 74). lia. Defined.

End CharacterCodecHex.

(** ** The length errors of the codec, with and without [hex] *)

Section CodecLengthErrors.

Import JuraEncoder JuraHex.

(** What [fromjura] with [hex] set makes of one item of its text. *)
#[local] Abbreviation item_bits :=
  (fun j : string =>
     hex_bind (unhexlify j) (fun bs =>
     hex_bind (lift (getitem bs 0)) (fun b =>
     lift (bitarray_of_string (format_08b b))))).













End CodecLengthErrors.

(** ** The alert scan on a table that is too short *)

Section AlertsStopped.

Import Script.

(** C7 fails on the code: with the table of a machine file whose only alert
    has bit 0, the status [00 C0 FF] has ten active bits (0, 1 and 8 to 15),
    and the scan logs bit 0 and stops at bit 1 with [IndexError]; the bits
    from 8 on are never examined. *)
Theorem alert_scan_stops_early :
  extract_alerts [ {| Bit := 0; AlertName := Some "descale"%string |} ]
  = Ok [Some "descale"%string] /\
  filter (alert_bit [0x00; 0xC0; 0xFF]) (range 16)
  = [0; 1; 8; 9; 10; 11; 12; 13; 14; 15] /\
  alert_scan [0x00; 0xC0; 0xFF] [Some "descale"%string]
  = ([(0, Some "descale"%string)], Some IndexError).
Proof. repeat split; vm_compute; reflexivity. Qed.

End AlertsStopped.
